(** * The Obsidian / Syncthing deconflicter, embedded in Rocq

    A shallow embedding of [obsidian.syncthing.deconflicter.py]: the two
    regular expressions of the program run on a small backtracking matcher
    that follows Python's [re] (priorities, laziness, groups, [^] and [$]);
    the functions that touch the outside world run in a state and exception
    monad over a [world] (file tree, log file, answers of the external
    commands) that also records every primitive call in a trace. *)

From Stdlib Require Import String Ascii List Bool Arith ZArith Lia.
From Stdlib Require Import DecimalString.
Import ListNotations.

Local Open Scope list_scope.
Local Open Scope string_scope.

(** ** Strings

    A Python [str] is a sequence of code points; the model keeps the code
    points below 256, which [ascii] enumerates. *)

Module Str.

Fixpoint drop (n : nat) (s : string) : string :=
  match n, s with
  | O, _ => s
  | S _, EmptyString => EmptyString
  | S n', String _ s' => drop n' s'
  end.

Fixpoint take (n : nat) (s : string) : string :=
  match n, s with
  | O, _ => EmptyString
  | S _, EmptyString => EmptyString
  | S n', String c s' => String c (take n' s')
  end.

(** [startswith p s]: [s.startswith(p)]. *)
Fixpoint startswith (p s : string) : bool :=
  match p, s with
  | EmptyString, _ => true
  | String _ _, EmptyString => false
  | String a p', String b s' => Ascii.eqb a b && startswith p' s'
  end.

Fixpoint all (c : ascii -> bool) (s : string) : bool :=
  match s with
  | EmptyString => true
  | String a s' => c a && all c s'
  end.

(** [join sep l]: [sep.join(l)]. *)
Fixpoint join (sep : string) (l : list string) : string :=
  match l with
  | [] => ""
  | [x] => x
  | x :: rest => x ++ sep ++ join sep rest
  end.

(** [str(n)] for a non-negative [int]. *)
Definition of_nat (n : nat) : string :=
  NilZero.string_of_uint (Nat.to_uint n).

End Str.

(** ** Regular expressions, as Python's [re] runs them *)

Module Re.

(** The constructs the two patterns of the program use. A star is only
    ever applied to a character class there. *)
Inductive regex : Type :=
| Lit (s : string)                (* literal text, also [re.escape(s)] *)
| Class (c : ascii -> bool)       (* one character of a class *)
| Seq (r1 r2 : regex)             (* r1r2 *)
| Alt (r1 r2 : regex)             (* r1|r2, r1 tried first *)
| Opt (r : regex)                 (* r?, greedy *)
| Rep (n : nat) (r : regex)       (* r{n} *)
| StarLazy (c : ascii -> bool)    (* c*? *)
| StarGreedy (c : ascii -> bool)  (* c* *)
| Group (i : nat) (r : regex)     (* capturing group number i *)
| Bol                             (* ^ *)
| Eol.                            (* $ *)

(** [\d] on code points below 256: the decimal digits. *)
Definition digit (a : ascii) : bool :=
  let n := nat_of_ascii a in ((48 <=? n) && (n <=? 57))%nat.

(** [\w] on code points below 256: [str.isalnum] or underscore. *)
Definition word (a : ascii) : bool :=
  let n := nat_of_ascii a in
  (((48 <=? n) && (n <=? 57)) || ((65 <=? n) && (n <=? 90)) || (n =? 95)
   || ((97 <=? n) && (n <=? 122))
   || (n =? 170) || (n =? 178) || (n =? 179) || (n =? 181) || (n =? 185)
   || (n =? 186) || ((188 <=? n) && (n <=? 190))
   || ((192 <=? n) && (n <=? 214)) || ((216 <=? n) && (n <=? 246))
   || (248 <=? n))%nat.

Definition newline : ascii := "010"%char.

(** [.] without DOTALL: anything but a newline. *)
Definition dot (a : ascii) : bool := negb (Ascii.eqb a newline).

(** The groups that took part in the match, most recent binding first. *)
Definition captures := list (nat * string).

Fixpoint group (i : nat) (caps : captures) : string :=
  match caps with
  | [] => ""
  | (j, s) :: rest => if Nat.eqb i j then s else group i rest
  end.

(** A continuation receives the position reached, the text left and the
    groups bound so far. *)
Definition cont := nat -> string -> captures -> option captures.

Fixpoint star_lazy (c : ascii -> bool) (pos : nat) (s : string)
    (caps : captures) (k : cont) : option captures :=
  match k pos s caps with
  | Some r => Some r
  | None =>
      match s with
      | String a s' => if c a then star_lazy c (S pos) s' caps k else None
      | EmptyString => None
      end
  end.

Fixpoint star_greedy (c : ascii -> bool) (pos : nat) (s : string)
    (caps : captures) (k : cont) : option captures :=
  match s with
  | String a s' =>
      if c a then
        match star_greedy c (S pos) s' caps k with
        | Some r => Some r
        | None => k pos s caps
        end
      else k pos s caps
  | EmptyString => k pos s caps
  end.

(** The backtracking matcher: the first success in Python's search order. *)
Fixpoint run (r : regex) (pos : nat) (s : string) (caps : captures)
    (k : cont) {struct r} : option captures :=
  match r with
  | Lit l =>
      if Str.startswith l s
      then k (pos + String.length l) (Str.drop (String.length l) s) caps
      else None
  | Class c =>
      match s with
      | String a s' => if c a then k (S pos) s' caps else None
      | EmptyString => None
      end
  | Seq r1 r2 =>
      run r1 pos s caps (fun pos' s' caps' => run r2 pos' s' caps' k)
  | Alt r1 r2 =>
      match run r1 pos s caps k with
      | Some res => Some res
      | None => run r2 pos s caps k
      end
  | Opt r1 =>
      match run r1 pos s caps k with
      | Some res => Some res
      | None => k pos s caps
      end
  | Rep n r1 =>
      (fix rep (n : nat) (pos : nat) (s : string) (caps : captures)
           (k : cont) {struct n} : option captures :=
         match n with
         | O => k pos s caps
         | S n' =>
             run r1 pos s caps (fun pos' s' caps' => rep n' pos' s' caps' k)
         end) n pos s caps k
  | StarLazy c => star_lazy c pos s caps k
  | StarGreedy c => star_greedy c pos s caps k
  | Group i r1 =>
      run r1 pos s caps
        (fun pos' s' caps' => k pos' s' ((i, Str.take (pos' - pos) s) :: caps'))
  | Bol => if Nat.eqb pos 0 then k pos s caps else None
  | Eol =>
      match s with
      | EmptyString => k pos s caps
      | String a EmptyString =>
          if Ascii.eqb a newline then k pos s caps else None
      | _ => None
      end
  end.

(** [pattern.match(s)]: anchored at the start, free at the end. *)
Definition rmatch (r : regex) (s : string) : option captures :=
  run r 0 s [] (fun _ _ caps => Some caps).

End Re.

Import Re.

Declare Scope regex_scope.
Delimit Scope regex_scope with re.
Infix "+++" := Seq (at level 60, right associativity) : regex_scope.

(** ** Configuration *)

Definition STVERSIONS_DIR : string := ".stversions".
Definition LOG_PATH : string := "deconflicter.log".
Definition SYNCTHING_URL : string := "http://localhost:8384".
Definition CHECK_DIR : string := ".".
Definition MIN_IDLE_TIME : Z := 600.

(** The pattern [^(.*?)(?:\.|%2F)sync-conflict-\d{8}-\d{6}-\w{7}\.?] followed
    by the second group, a greedy star of [.], and by [$]. *)
Definition CONFLICT_REGEX : regex :=
  (Bol +++ Group 1 (StarLazy dot) +++ Alt (Lit ".") (Lit "%2F")
   +++ Lit "sync-conflict-" +++ Rep 8 (Class digit) +++ Lit "-"
   +++ Rep 6 (Class digit) +++ Lit "-" +++ Rep 7 (Class word)
   +++ Opt (Lit ".") +++ Group 2 (StarGreedy dot) +++ Eol)%re.

(** [match.groups()] of a match of [CONFLICT_REGEX]. *)
Definition conflict_groups (p : string) : option (string * string) :=
  match rmatch CONFLICT_REGEX p with
  | Some caps => Some (group 1 caps, group 2 caps)
  | None => None
  end.

(** ** The world the program runs in *)

(** An entry of the tree as a walk lists it. [Vanished] is an entry that
    the walk still lists but that is gone when it is accessed (deleted in
    between, or a dangling link): [stat] raises [FileNotFoundError] there.
    Time stamps ([st_mtime], [time.time()]) are exact numbers of clock
    ticks, and a window in seconds is counted in the same unit. *)
Inductive node : Type :=
| Regular (mtime : Z) (data : string)
| Vanished.

(** The files below the working directory, keyed by their normalised
    relative path, in the order in which [os.walk] meets them. *)
Definition tree := list (string * node).

(** What starting a command and waiting for it gives. *)
Inductive proc_outcome : Type :=
| Exited (code : Z)
| NotLaunched.            (* the executable cannot be started *)

(** What the [try] block of the status request gives: the [state] field
    of the JSON body, or the exception [e] that [requests.get],
    [raise_for_status], [json] or [get] raised, as its text [str(e)]. *)
Inductive http_outcome : Type :=
| Answered (state : option string)
| Failed (msg : string).

Inductive exn : Type :=
| CalledProcessError (code : Z)
| FileNotFoundError (what : string).

(** Calls to the outside world, as the trace records them. *)
Inductive event : Type :=
| CheckOutput (cmd : list string)
| RequestsGet (url : string) (key : option string)
| Sleep
| Walk (root : string)
| Getmtime (p : string) (r : option Z)
| Isfile (p : string) (r : bool)
| Run (cmd : list string)
| Remove (p : string)
| LogWrite (line : string).

(** What the run does not control. *)
Record env : Type := {
  API_KEY : option string;       (* os.environ.get("SYNCTHING_API_KEY") *)
  FOLDER_ID : option string;     (* os.environ.get("SYNCTHING_FOLDER_ID") *)
  pgrep : proc_outcome;          (* pgrep -x Obsidian *)
  syncthing : http_outcome;      (* GET /rest/db/status *)
  clock : Z;                     (* time.time() *)
  stamp : string;                (* datetime.now().strftime(...) *)
  (* git merge-file --union on three contents: the exit status, and the
     new content of the first file when the tool writes one *)
  git : string -> string -> string -> Z * option string
}.

Record world : Type := {
  environ : env;
  files : tree;
  logfile : list string;         (* the lines of LOG_PATH *)
  trace : list event
}.

Definition set_files (t : tree) (w : world) : world :=
  {| environ := environ w; files := t; logfile := logfile w;
     trace := trace w |}.

Definition set_logfile (l : list string) (w : world) : world :=
  {| environ := environ w; files := files w; logfile := l;
     trace := trace w |}.

Definition traced (e : event) (w : world) : world :=
  {| environ := environ w; files := files w; logfile := logfile w;
     trace := (trace w ++ [e])%list |}.

(** ** File tree operations *)

Module Fs.

(** [os.path.normpath] on the paths the program builds: the leading
    [./] that [os.path.join] leaves is dropped. *)
Fixpoint normpath (p : string) : string :=
  match p with
  | String a (String b rest) =>
      if Ascii.eqb a "." && Ascii.eqb b "/" then normpath rest else p
  | _ => p
  end.

(** [os.path.relpath(p, start)] for a path at or below [start]. *)
Definition relpath (p start : string) : string :=
  let p' := normpath p in
  let s' := normpath start in
  if String.eqb s' "." then p'
  else if Str.startswith (s' ++ "/") p'
       then Str.drop (String.length s' + 1) p'
       else p'.

Fixpoint lookup (p : string) (t : tree) : option node :=
  match t with
  | [] => None
  | (q, n) :: t' => if String.eqb p q then Some n else lookup p t'
  end.

(** [os.path.isfile(p)] *)
Definition is_file (p : string) (t : tree) : bool :=
  match lookup (normpath p) t with
  | Some (Regular _ _) => true
  | _ => false
  end.

Definition read (p : string) (t : tree) : option string :=
  match lookup (normpath p) t with
  | Some (Regular _ d) => Some d
  | _ => None
  end.

Definition write (p : string) (now : Z) (d : string) (t : tree) : tree :=
  map (fun e : string * node =>
         if String.eqb (normpath p) (fst e)
         then (fst e, Regular now d) else e) t.

Definition unlink (p : string) (t : tree) : tree :=
  filter (fun e : string * node => negb (String.eqb (normpath p) (fst e))) t.

(** The [os.path.join(dirpath, name)] of every file [os.walk(root)]
    lists, in walk order. *)
Definition walk (root : string) (t : tree) : list string :=
  if String.eqb root "." then map (fun e => "./" ++ fst e) t
  else map fst (filter (fun e : string * node =>
                          Str.startswith (root ++ "/") (fst e)) t).

End Fs.

(** ** The monad: state, exceptions and the trace *)

Inductive result (A : Type) : Type :=
| Ok (a : A)
| Raised (e : exn).
Arguments Ok {A} a.
Arguments Raised {A} e.

Definition M (A : Type) : Type := world -> result A * world.

Definition ret {A : Type} (a : A) : M A := fun w => (Ok a, w).

Definition bind {A B : Type} (m : M A) (f : A -> M B) : M B :=
  fun w =>
    match m w with
    | (Ok a, w') => f a w'
    | (Raised e, w') => (Raised e, w')
    end.

Definition raise {A : Type} (e : exn) : M A := fun w => (Raised e, w).

(** [try: m except <caught>: h]. *)
Definition try_except {A : Type} (m : M A) (caught : exn -> bool)
    (h : exn -> M A) : M A :=
  fun w =>
    match m w with
    | (Raised e, w') => if caught e then h e w' else (Raised e, w')
    | r => r
    end.

Definition emit (e : event) : M unit := fun w => (Ok tt, traced e w).

Definition ask : M env := fun w => (Ok (environ w), w).

Declare Scope monad_scope.
Delimit Scope monad_scope with monad.
Notation "x <- m ;; k" := (bind m (fun x => k))
  (at level 61, m at next level, right associativity) : monad_scope.
Notation "m ;;; k" := (bind m (fun _ => k))
  (at level 61, right associativity) : monad_scope.
Local Open Scope monad_scope.

(** ** Library calls *)

Definition is_CalledProcessError (e : exn) : bool :=
  match e with CalledProcessError _ => true | _ => false end.

Definition is_FileNotFoundError (e : exn) : bool :=
  match e with FileNotFoundError _ => true | _ => false end.

(** [subprocess.check_output(cmd)] for the process query: the output on
    exit status 0, [CalledProcessError] on another status, and the
    [FileNotFoundError] of [Popen] when the command cannot be started. *)
Definition check_output (cmd : list string) : M unit :=
  emit (CheckOutput cmd) ;;;
  e <- ask ;;
  match pgrep e with
  | Exited 0 => ret tt
  | Exited c => raise (CalledProcessError c)
  | NotLaunched => raise (FileNotFoundError "pgrep")
  end.

(** The [try] block of [is_syncthing_idle]: [requests.get(url, headers,
    timeout)], [raise_for_status()] and [json().get("state")]. *)
Definition requests_get_state (url : string) (key : option string)
    : M http_outcome :=
  emit (RequestsGet url key) ;;;
  e <- ask ;;
  ret (syncthing e).

Definition time_time : M Z := e <- ask ;; ret (clock e).

Definition strftime_now : M string := e <- ask ;; ret (stamp e).

Definition time_sleep : M unit := emit Sleep.

Definition os_walk (root : string) : M (list string) :=
  fun w => (Ok (Fs.walk root (files w)), traced (Walk root) w).

Definition getmtime (p : string) : M Z :=
  fun w =>
    match Fs.lookup (Fs.normpath p) (files w) with
    | Some (Regular t _) => (Ok t, traced (Getmtime p (Some t)) w)
    | _ => (Raised (FileNotFoundError p), traced (Getmtime p None) w)
    end.

Definition isfile (p : string) : M bool :=
  fun w =>
    let r := Fs.is_file p (files w) in
    (Ok r, traced (Isfile p r) w).

Definition os_remove (p : string) : M unit :=
  fun w =>
    match Fs.lookup (Fs.normpath p) (files w) with
    | Some (Regular _ _) =>
        (Ok tt, set_files (Fs.unlink p (files w)) (traced (Remove p) w))
    | _ => (Raised (FileNotFoundError p), traced (Remove p) w)
    end.

(** [subprocess.run(cmd).returncode] for the merge command: the tool
    reads the three files and may rewrite the first; an unreadable file
    makes it exit with its error status and write nothing. *)
Definition run_git_merge_file (original backup conflict : string) : M Z :=
  fun w =>
    let w1 := traced (Run ["git"; "merge-file"; "--union";
                           original; backup; conflict]) w in
    match Fs.read original (files w), Fs.read backup (files w),
          Fs.read conflict (files w) with
    | Some o, Some b, Some c =>
        match git (environ w) o b c with
        | (rc, Some merged) =>
            (Ok rc, set_files (Fs.write original (clock (environ w)) merged
                                 (files w)) w1)
        | (rc, None) => (Ok rc, w1)
        end
    | _, _, _ => (Ok 255%Z, w1)
    end.

(** [open(LOG_PATH, "a").write(line)] *)
Definition append_log (line : string) : M unit :=
  fun w => (Ok tt, set_logfile (logfile w ++ [line])%list (traced (LogWrite line) w)).

(** ** The program *)

(** Truth value of a [str]. *)
Definition nonempty (s : string) : bool :=
  match s with EmptyString => false | _ => true end.

Definition is_some {A : Type} (o : option A) : bool :=
  match o with Some _ => true | None => false end.

(** An f-string field holding an optional value. *)
Definition fmt_opt (o : option string) : string :=
  match o with Some s => s | None => "None" end.

Definition eol : string := String newline EmptyString.

Definition log_run (message : string) : M unit :=
  timestamp <- strftime_now ;;
  append_log ("[" ++ timestamp ++ "] " ++ message ++ eol).

Definition is_obsidian_running : M bool :=
  try_except
    (check_output ["pgrep"; "-x"; "Obsidian"] ;;; ret true)
    is_CalledProcessError
    (fun _ => ret false).

Definition is_syncthing_idle (folder_id : option string) : M bool :=
  e <- ask ;;
  answer <- requests_get_state
              (SYNCTHING_URL ++ "/rest/db/status?folder=" ++ fmt_opt folder_id)
              (API_KEY e) ;;
  match answer with
  | Answered state =>
      ret (match state with
           | Some st => String.eqb st "idle"
           | None => false
           end)
  | Failed msg =>
      (* except Exception as e *)
      log_run ("Error checking Syncthing status: " ++ msg) ;;;
      ret false
  end.

(** The body of the inner loop of [no_recent_file_changes]: [true] when
    it executes [return False], [false] when it falls through or
    [continue]s. *)
Definition changed_recently (now seconds : Z) (full_path : string) : M bool :=
  try_except
    (mtime <- getmtime full_path ;; ret (now - seconds <? mtime)%Z)
    is_FileNotFoundError
    (fun _ => ret false).

Fixpoint none_changed (now seconds : Z) (paths : list string) : M bool :=
  match paths with
  | [] => ret true
  | full_path :: rest =>
      hit <- changed_recently now seconds full_path ;;
      if hit then ret false else none_changed now seconds rest
  end.

Definition no_recent_file_changes (path : string) (seconds : Z) : M bool :=
  now <- time_time ;;
  paths <- os_walk path ;;
  none_changed now seconds paths.

(** The test [CONFLICT_REGEX.match(rel_path)] of the scanner. *)
Definition is_conflict (rel_path : string) : bool :=
  is_some (rmatch CONFLICT_REGEX rel_path).

Definition find_conflict_files (base_dir : string) : M (list string) :=
  paths <- os_walk base_dir ;;
  ret (filter is_conflict (map (fun p => Fs.relpath p base_dir) paths)).

(** The pattern [find_backup_file] compiles. *)
Definition backup_pattern (conflict_base ext : string) : regex :=
  (Lit STVERSIONS_DIR +++ Lit "/" +++ Lit conflict_base +++ Lit "~"
   +++ Rep 8 (Class digit) +++ Lit "-" +++ Rep 6 (Class digit)
   +++ Lit "." +++ Lit ext)%re.

(** The test [pattern.match(candidate)]. *)
Definition is_backup (conflict_base ext candidate : string) : bool :=
  is_some (rmatch (backup_pattern conflict_base ext) candidate).

Definition find_backup_file (conflict_base ext : string)
    : M (option string) :=
  paths <- os_walk STVERSIONS_DIR ;;
  ret (find (is_backup conflict_base ext)
         (map (fun p => Fs.relpath p ".") paths)).

Definition merge_files (original backup conflict : string) : M bool :=
  returncode <- run_git_merge_file original backup conflict ;;
  ret (returncode =? 0)%Z.

(** [f"{base_name}.{ext}" if ext else base_name] *)
Definition original_of (base_name ext : string) : string :=
  if nonempty ext then base_name ++ "." ++ ext else base_name.

Definition process_conflict (conflict_path : string) : M bool :=
  match conflict_groups conflict_path with
  | None => ret false
  | Some (base_name, ext) =>
      let original := original_of base_name ext in
      present <- isfile original ;;
      if negb present then ret false else
      backup <- find_backup_file base_name ext ;;
      match backup with
      | None => ret false
      | Some b =>
          if negb (nonempty b) then ret false else
          merged <- merge_files original b conflict_path ;;
          if merged then os_remove conflict_path ;;; ret true
          else ret false
      end
  end.

(** The loop of [main] over the conflicts found. *)
Fixpoint process_all (conflicts resolved_files : list string)
    : M (list string) :=
  match conflicts with
  | [] => ret resolved_files
  | conflict :: rest =>
      ok <- process_conflict conflict ;;
      process_all rest
        (if ok then (resolved_files ++ [conflict])%list else resolved_files)
  end.

Definition summary_of (resolved_files : list string) : string :=
  match resolved_files with
  | [] => "No conflicts found"
  | _ => "Resolved " ++ Str.of_nat (List.length resolved_files)
         ++ " conflict(s): " ++ Str.join ", " resolved_files
  end.

Definition main : M unit :=
  running <- is_obsidian_running ;;
  if running then log_run "Skipped: Obsidian is running" else
  e <- ask ;;
  idle <- is_syncthing_idle (FOLDER_ID e) ;;
  if negb idle then log_run "Skipped: Syncthing is active" else
  quiet <- no_recent_file_changes CHECK_DIR MIN_IDLE_TIME ;;
  if negb quiet then log_run "Skipped: recent file changes detected" else
  time_sleep ;;;
  conflicts <- find_conflict_files "." ;;
  resolved_files <- process_all conflicts [] ;;
  log_run (summary_of resolved_files).

(** ** A run of the end-to-end scenario *)

Definition union_of (o b c : string) : Z * option string :=
  (0%Z, Some (o ++ c)).

Definition demo_env : env :=
  {| API_KEY := Some "key"; FOLDER_ID := Some "notes";
     pgrep := Exited 1; syncthing := Answered (Some "idle");
     clock := 1000000; stamp := "2024-01-03 09:00:00";
     git := union_of |}.

Definition demo_world : world :=
  {| environ := demo_env;
     files := [ ("notes/a.md", Regular 1000 "A");
                (".stversions/notes/a~20240101-120000.md", Regular 900 "A");
                ("notes/a.sync-conflict-20240102-130000-abcd123.md",
                 Regular 1100 "C") ];
     logfile := [];
     trace := [] |}.

(** ** What a pattern denotes

    [spans r pos u rest c0 c1]: at position [pos], with [rest] after it,
    the text [u] is one way for [r] to match, turning the groups [c0]
    into [c1]. *)
Fixpoint spans (r : regex) (pos : nat) (u rest : string)
    (c0 c1 : captures) {struct r} : Prop :=
  match r with
  | Lit l => u = l /\ c1 = c0
  | Class c => exists a, u = String a "" /\ c a = true /\ c1 = c0
  | Seq r1 r2 =>
      exists u1 u2 cm, u = u1 ++ u2
        /\ spans r1 pos u1 (u2 ++ rest) c0 cm
        /\ spans r2 (pos + String.length u1) u2 rest cm c1
  | Alt r1 r2 => spans r1 pos u rest c0 c1 \/ spans r2 pos u rest c0 c1
  | Opt r1 => spans r1 pos u rest c0 c1 \/ (u = "" /\ c1 = c0)
  | Rep n r1 =>
      (fix rep (n : nat) (pos : nat) (u : string) (c0 : captures)
           {struct n} : Prop :=
         match n with
         | O => u = "" /\ c1 = c0
         | S n' =>
             exists u1 u2 cm, u = u1 ++ u2
               /\ spans r1 pos u1 (u2 ++ rest) c0 cm
               /\ rep n' (pos + String.length u1) u2 cm
         end) n pos u c0
  | StarLazy c => Str.all c u = true /\ c1 = c0
  | StarGreedy c => Str.all c u = true /\ c1 = c0
  | Group i r1 => exists cm, spans r1 pos u rest c0 cm /\ c1 = (i, u) :: cm
  | Bol => pos = 0 /\ u = "" /\ c1 = c0
  | Eol => u = "" /\ (rest = "" \/ rest = eol) /\ c1 = c0
  end.

(** The conflict-naming grammar: base, separator, [sync-conflict-], eight
    digits, six digits, seven word characters, an optional dot and the
    rest of the name; [tail] is what may follow the extension. *)
Definition conflict_shape (p base ext tail : string) : Prop :=
  exists sep d8 d6 w7 odot,
    p = base ++ sep ++ "sync-conflict-" ++ d8 ++ "-" ++ d6 ++ "-" ++ w7
        ++ odot ++ ext ++ tail
    /\ (sep = "." \/ sep = "%2F")
    /\ String.length d8 = 8 /\ Str.all digit d8 = true
    /\ String.length d6 = 6 /\ Str.all digit d6 = true
    /\ String.length w7 = 7 /\ Str.all word w7 = true
    /\ (odot = "" \/ odot = ".")
    /\ Str.all dot base = true /\ Str.all dot ext = true.

(** A name of the grammar, on one line. *)
Definition conflict_name (p : string) : Prop :=
  exists base ext, conflict_shape p base ext "".

(** ** Reading the program's results off the world *)

(** The candidates [find_backup_file] tests, in walk order. *)
Definition backup_candidates (t : tree) : list string :=
  map (fun p => Fs.relpath p ".") (Fs.walk STVERSIONS_DIR t).

(** The exit status of the merge command on three paths. *)
Definition merge_exit (e : env) (t : tree) (original backup conflict : string)
    : Z :=
  match Fs.read original t, Fs.read backup t, Fs.read conflict t with
  | Some o, Some b, Some c => fst (git e o b c)
  | _, _, _ => 255%Z
  end.

(** The paths the scanner yields, in walk order. *)
Definition conflicts_of (t : tree) : list string :=
  filter is_conflict (map (fun p => Fs.relpath p ".") (Fs.walk "." t)).

(** The artifacts for which [process_conflict] returns true, in the order
    in which they are processed, each one in the world its predecessors
    left. *)
Fixpoint resolved_in_order (conflicts : list string) (w : world)
    : list string * world :=
  match conflicts with
  | [] => ([], w)
  | c :: rest =>
      let (r, w1) := process_conflict c w in
      let (rs, w2) := resolved_in_order rest w1 in
      (match r with Ok true => c :: rs | _ => rs end, w2)
  end.

(** The line [log_run] writes for a message. *)
Definition log_line (e : env) (message : string) : string :=
  "[" ++ stamp e ++ "] " ++ message ++ eol.

(** The test of the inner loop of [no_recent_file_changes], read off the
    tree. *)
Definition recent_at (now seconds : Z) (t : tree) (full_path : string)
    : bool :=
  match Fs.lookup (Fs.normpath full_path) t with
  | Some (Regular mtime _) => (now - seconds <? mtime)%Z
  | _ => false
  end.

(** The start of what follows the base name in a conflict path: two
    characters, neither of them a slash. *)
Definition firm_head (x : string) : Prop :=
  match x with
  | String a (String b _) =>
      Ascii.eqb a "/" = false /\ Ascii.eqb b "/" = false
  | _ => False
  end.


(** ** Worlds used as examples *)

Definition with_pgrep (o : proc_outcome) (e : env) : env :=
  {| API_KEY := API_KEY e; FOLDER_ID := FOLDER_ID e; pgrep := o;
     syncthing := syncthing e; clock := clock e; stamp := stamp e;
     git := git e |}.

Definition with_env (e : env) (w : world) : world :=
  {| environ := e; files := files w; logfile := logfile w;
     trace := trace w |}.


(** [pgrep] is not installed. *)
Definition no_pgrep_world : world :=
  with_env (with_pgrep NotLaunched demo_env) demo_world.

Definition demo_conflict : string :=
  "notes/a.sync-conflict-20240102-130000-abcd123.md".

(** The original of the scenario is missing. *)
Definition orphan_world : world :=
  set_files [ (".stversions/notes/a~20240101-120000.md", Regular 900 "A");
              (demo_conflict, Regular 1100 "C") ] demo_world.

(** The extension-less file of the scenario: original, backup as the sync
    engine names it, and conflict artifact. *)
Definition readme_conflict : string :=
  "README.sync-conflict-20240102-130000-abcd123".

Definition readme_world : world :=
  set_files [ ("README", Regular 1000 "A");
              (".stversions/README~20240101-120000", Regular 900 "A");
              (readme_conflict, Regular 1100 "C") ] demo_world.

(** Two backups of one file, the older one first in walk order. *)
Definition two_backups_world : world :=
  set_files [ ("notes/a.md", Regular 1000 "A");
              (".stversions/notes/a~20230101-120000.md", Regular 800 "0");
              (".stversions/notes/a~20240101-120000.md", Regular 900 "A");
              (demo_conflict, Regular 1100 "C") ] demo_world.

(** ** Definitions for the further properties *)

(** What [CONFLICT_REGEX] asks for after its first group. *)
Definition CONFLICT_TAIL : regex :=
  (Alt (Lit ".") (Lit "%2F")
   +++ Lit "sync-conflict-" +++ Rep 8 (Class digit) +++ Lit "-"
   +++ Rep 6 (Class digit) +++ Lit "-" +++ Rep 7 (Class word)
   +++ Opt (Lit ".") +++ Group 2 (StarGreedy dot) +++ Eol)%re.

(** [needle in s] *)
Definition contains (needle s : string) : Prop :=
  exists pre post, s = pre ++ needle ++ post.

(** Every key of the tree is a normalised path. *)
Definition normalised (t : tree) : Prop :=
  forall k n, In (k, n) t -> Fs.normpath k = k.

(** The elements of a list up to and including the first one that
    satisfies [f]. *)
Fixpoint upto_first {A : Type} (f : A -> bool) (l : list A) : list A :=
  match l with
  | [] => []
  | a :: l' => if f a then [a] else a :: upto_first f l'
  end.

(** The event a call of [getmtime] leaves in the trace. *)
Definition getmtime_event (t : tree) (p : string) : event :=
  Getmtime p (match Fs.lookup (Fs.normpath p) t with
              | Some (Regular m _) => Some m
              | _ => None
              end).




(** The answer of the status request, read off the environment. *)
Definition idle_answer (e : env) : bool :=
  match syncthing e with
  | Answered (Some st) => String.eqb st "idle"
  | _ => false
  end.

(** The log lines [is_syncthing_idle] writes. *)
Definition idle_lines (e : env) : list string :=
  match syncthing e with
  | Failed msg => [log_line e ("Error checking Syncthing status: " ++ msg)]
  | Answered _ => []
  end.

(** The world after the three checks, when they are all made. *)
Definition after_checks (w : world) : world :=
  {| environ := environ w; files := files w;
     logfile := (logfile w ++ idle_lines (environ w))%list;
     trace := (trace w
               ++ CheckOutput ["pgrep"; "-x"; "Obsidian"]
               :: RequestsGet (SYNCTHING_URL ++ "/rest/db/status?folder="
                               ++ fmt_opt (FOLDER_ID (environ w)))
                    (API_KEY (environ w))
               :: map LogWrite (idle_lines (environ w))
               ++ Walk CHECK_DIR
               :: map (getmtime_event (files w))
                    (upto_first
                       (recent_at (clock (environ w)) MIN_IDLE_TIME (files w))
                       (Fs.walk CHECK_DIR (files w))))%list |}.

(** The world after the status request, when the run stops there. *)
Definition after_request (w : world) : world :=
  {| environ := environ w; files := files w;
     logfile := (logfile w ++ idle_lines (environ w))%list;
     trace := (trace w
               ++ CheckOutput ["pgrep"; "-x"; "Obsidian"]
               :: RequestsGet (SYNCTHING_URL ++ "/rest/db/status?folder="
                               ++ fmt_opt (FOLDER_ID (environ w)))
                    (API_KEY (environ w))
               :: map LogWrite (idle_lines (environ w)))%list |}.

(** The world in which the loop over the conflicts starts. *)
Definition scan_world (w : world) : world :=
  traced (Walk ".") (traced Sleep (after_checks w)).

(** ** More example worlds *)



(** An old file, a file changed a hundred ticks ago, and a third one. *)
Definition busy_world : world :=
  set_files [ ("a.md", Regular 1000 "a"); ("b.md", Regular 999900 "b");
              ("c.md", Regular 999950 "c") ] demo_world.

(** A path with two conflict markers. *)
Definition twice_conflict : string :=
  "x.sync-conflict-20240101-120000-abc1234"
  ++ ".sync-conflict-20240202-130000-def5678.md".

(** * Proofs *)

(** ** Facts about strings *)

Section StringFacts.

Implicit Types s t u : string.

Lemma append_nil_r s : s ++ "" = s.
Proof. induction s as [|a s IH]; simpl; [reflexivity | now rewrite IH]. Qed.

Lemma append_assoc s t u : (s ++ t) ++ u = s ++ (t ++ u).
Proof. induction s as [|a s IH]; simpl; [reflexivity | now rewrite IH]. Qed.

Lemma length_append s t :
  String.length (s ++ t) = String.length s + String.length t.
Proof. induction s as [|a s IH]; simpl; [reflexivity | now rewrite IH]. Qed.

Lemma startswith_append s t : Str.startswith s (s ++ t) = true.
Proof.
  induction s as [|a s IH]; simpl; [reflexivity |].
  now rewrite Ascii.eqb_refl, IH.
Qed.

Lemma startswith_inv s : forall t,
  Str.startswith s t = true -> t = s ++ Str.drop (String.length s) t.
Proof.
  induction s as [|a s IH]; intros [|b t]; simpl; try reflexivity;
    try discriminate.
  intros H. apply andb_true_iff in H as [Hab Hst].
  apply Ascii.eqb_eq in Hab. subst b. f_equal. now apply IH.
Qed.

Lemma drop_append s t : Str.drop (String.length s) (s ++ t) = t.
Proof. induction s as [|a s IH]; simpl; [now destruct t | exact IH]. Qed.

Lemma take_append s t : Str.take (String.length s) (s ++ t) = s.
Proof. induction s as [|a s IH]; simpl; [now destruct t | now rewrite IH]. Qed.

End StringFacts.

(** ** Two runs of the model *)

Example conflict_groups_todo :
  conflict_groups "notes/todo.sync-conflict-20240101-120000-abc1234.md"
  = Some ("notes/todo", "md").
Proof. vm_compute. reflexivity. Qed.

(** The matcher on names with a line break at the end, with a second
    conflict marker, with the encoded separator and with no extension. *)
Example conflict_groups_corners :
  conflict_groups ("a.sync-conflict-20240101-120000-abc1234.md" ++ eol)
  = Some ("a", "md")
  /\ conflict_groups
       ("x.sync-conflict-20240101-120000-abc1234"
        ++ ".sync-conflict-20240101-120000-abc1234.md")
     = Some ("x", "sync-conflict-20240101-120000-abc1234.md")
  /\ conflict_groups "a%2Fsync-conflict-20240101-120000-abc1234"
     = Some ("a", "")
  /\ conflict_groups "a.sync-conflict-20240101-120000-abc123.md" = None.
Proof. vm_compute. auto. Qed.

Example demo_main :
  let (r, w) := main demo_world in
  r = Ok tt
  /\ logfile w =
     ["[2024-01-03 09:00:00] Resolved 1 conflict(s): "
      ++ "notes/a.sync-conflict-20240102-130000-abcd123.md" ++ eol]
  /\ map fst (files w) =
     ["notes/a.md"; ".stversions/notes/a~20240101-120000.md"].
Proof. vm_compute. repeat split. Qed.

(** ** The matcher finds what the pattern denotes *)

Section Matcher.

Lemma run_rep_S n r pos s caps k :
  run (Rep (S n) r) pos s caps k
  = run r pos s caps (fun pos' s' caps' => run (Rep n r) pos' s' caps' k).
Proof. reflexivity. Qed.

Lemma spans_rep_S n r pos u rest c0 c1 :
  spans (Rep (S n) r) pos u rest c0 c1
  <-> exists u1 u2 cm, u = u1 ++ u2
        /\ spans r pos u1 (u2 ++ rest) c0 cm
        /\ spans (Rep n r) (pos + String.length u1) u2 rest cm c1.
Proof. reflexivity. Qed.

Lemma star_lazy_sound c s : forall pos caps k res,
  star_lazy c pos s caps k = Some res ->
  exists u rest, s = u ++ rest /\ Str.all c u = true
    /\ k (pos + String.length u) rest caps = Some res.
Proof.
  induction s as [|a s IH]; intros pos caps k res H; simpl in H.
  - destruct (k pos "" caps) eqn:Hk; [|discriminate].
    exists "", "". simpl. rewrite Nat.add_0_r. now rewrite Hk.
  - destruct (k pos (String a s) caps) eqn:Hk.
    + exists "", (String a s). simpl. rewrite Nat.add_0_r. now rewrite Hk.
    + destruct (c a) eqn:Hc; [|discriminate].
      apply IH in H as (u & rest & -> & Hall & Hres).
      exists (String a u), rest. simpl. rewrite Hc, Hall.
      rewrite <- Nat.add_succ_comm. auto.
Qed.

Lemma star_greedy_sound c s : forall pos caps k res,
  star_greedy c pos s caps k = Some res ->
  exists u rest, s = u ++ rest /\ Str.all c u = true
    /\ k (pos + String.length u) rest caps = Some res.
Proof.
  induction s as [|a s IH]; intros pos caps k res H; simpl in H.
  - exists "", "". simpl. now rewrite Nat.add_0_r.
  - assert (Hhere : k pos (String a s) caps = Some res ->
      exists u rest, String a s = u ++ rest /\ Str.all c u = true
        /\ k (pos + String.length u) rest caps = Some res).
    { intros Hk. exists "", (String a s). simpl. now rewrite Nat.add_0_r. }
    destruct (c a) eqn:Hc; [|auto].
    destruct (star_greedy c (S pos) s caps k) eqn:Hg; [|auto].
    injection H as ->.
    apply IH in Hg as (u & rest & -> & Hall & Hres).
    exists (String a u), rest. simpl. rewrite Hc, Hall.
    rewrite <- Nat.add_succ_comm. auto.
Qed.

Theorem run_sound r : forall pos s caps k res,
  run r pos s caps k = Some res ->
  exists u rest caps',
    s = u ++ rest /\ spans r pos u rest caps caps'
    /\ k (pos + String.length u) rest caps' = Some res.
Proof.
  induction r as [l | c | r1 IH1 r2 IH2 | r1 IH1 r2 IH2 | r1 IH1 | n r1 IH1
                 | c | c | i r1 IH1 | | ]; intros pos s caps k res H.
  - simpl in H. destruct (Str.startswith l s) eqn:Hl; [|discriminate].
    exists l, (Str.drop (String.length l) s), caps.
    split; [now apply startswith_inv | now split].
  - simpl in H. destruct s as [|a s]; [discriminate|].
    destruct (c a) eqn:Hc; [|discriminate].
    exists (String a ""), s, caps. simpl. rewrite Nat.add_1_r.
    split; [reflexivity | split; [now exists a | exact H]].
  - simpl in H. apply IH1 in H as (u1 & rest1 & cm & -> & Hs1 & H).
    apply IH2 in H as (u2 & rest & c2 & -> & Hs2 & H).
    exists (u1 ++ u2), rest, c2. rewrite append_assoc, length_append.
    rewrite Nat.add_assoc. split; [reflexivity | split; [|exact H]].
    now exists u1, u2, cm.
  - simpl in H. destruct (run r1 pos s caps k) eqn:H1.
    + injection H as ->. apply IH1 in H1 as (u & rest & c' & ? & ? & ?).
      exists u, rest, c'. simpl. auto.
    + apply IH2 in H as (u & rest & c' & ? & ? & ?).
      exists u, rest, c'. simpl. auto.
  - simpl in H. destruct (run r1 pos s caps k) eqn:H1.
    + injection H as ->. apply IH1 in H1 as (u & rest & c' & ? & ? & ?).
      exists u, rest, c'. simpl. auto.
    + exists "", s, caps. simpl. rewrite Nat.add_0_r. auto.
  - revert pos s caps k res H.
    induction n as [|n IHn]; intros pos s caps k res H.
    + exists "", s, caps. simpl. rewrite Nat.add_0_r. auto.
    + rewrite run_rep_S in H.
      apply IH1 in H as (u1 & rest1 & cm & -> & Hs1 & H).
      apply IHn in H as (u2 & rest & c2 & -> & Hs2 & H).
      exists (u1 ++ u2), rest, c2. rewrite append_assoc, length_append.
      rewrite Nat.add_assoc. split; [reflexivity | split; [|exact H]].
      apply spans_rep_S. now exists u1, u2, cm.
  - simpl in H. apply star_lazy_sound in H as (u & rest & ? & ? & ?).
    exists u, rest, caps. simpl. auto.
  - simpl in H. apply star_greedy_sound in H as (u & rest & ? & ? & ?).
    exists u, rest, caps. simpl. auto.
  - simpl in H. apply IH1 in H as (u & rest & cm & -> & Hs & H).
    exists u, rest, ((i, u) :: cm).
    replace (pos + String.length u - pos) with (String.length u) in H by lia.
    rewrite take_append in H.
    split; [reflexivity | split; [|exact H]]. now exists cm.
  - simpl in H. destruct (Nat.eqb pos 0) eqn:Hp; [|discriminate].
    apply Nat.eqb_eq in Hp. exists "", s, caps. simpl.
    rewrite Nat.add_0_r. auto.
  - simpl in H. exists "", s, caps. simpl. rewrite Nat.add_0_r.
    destruct s as [|a [|b s]]; try discriminate.
    + repeat split; auto.
    + destruct (Ascii.eqb a newline) eqn:Ha; [|discriminate].
      apply Ascii.eqb_eq in Ha. subst a. unfold eol. repeat split; auto.
Qed.

End Matcher.

(** ** The matcher misses nothing the pattern denotes *)

Section MatcherComplete.

Lemma star_lazy_complete c u : forall pos rest caps k,
  Str.all c u = true ->
  is_some (k (pos + String.length u) rest caps) = true ->
  is_some (star_lazy c pos (u ++ rest) caps k) = true.
Proof.
  induction u as [|a u IH]; intros pos rest caps k Hall Hk.
  - simpl in *. rewrite Nat.add_0_r in Hk.
    destruct rest; simpl; destruct (k pos _ caps); easy.
  - simpl in *. apply andb_true_iff in Hall as [Ha Hall].
    destruct (k pos (String a (u ++ rest)) caps); [reflexivity|].
    rewrite Ha. apply IH; [exact Hall|].
    now rewrite Nat.add_succ_comm.
Qed.

Lemma star_greedy_complete c u : forall pos rest caps k,
  Str.all c u = true ->
  is_some (k (pos + String.length u) rest caps) = true ->
  is_some (star_greedy c pos (u ++ rest) caps k) = true.
Proof.
  induction u as [|a u IH]; intros pos rest caps k Hall Hk.
  - simpl in *. rewrite Nat.add_0_r in Hk.
    destruct rest as [|b rest]; simpl; [exact Hk|].
    destruct (c b); [|exact Hk].
    destruct (star_greedy c (S pos) rest caps k); [reflexivity | exact Hk].
  - simpl in *. apply andb_true_iff in Hall as [Ha Hall].
    rewrite Ha.
    assert (Hin : is_some (star_greedy c (S pos) (u ++ rest) caps k) = true).
    { apply IH; [exact Hall|]. now rewrite Nat.add_succ_comm. }
    destruct (star_greedy c (S pos) (u ++ rest) caps k);
      [reflexivity | discriminate].
Qed.

Theorem run_complete r : forall pos u rest c0 c1 k,
  spans r pos u rest c0 c1 ->
  is_some (k (pos + String.length u) rest c1) = true ->
  is_some (run r pos (u ++ rest) c0 k) = true.
Proof.
  induction r as [l | c | r1 IH1 r2 IH2 | r1 IH1 r2 IH2 | r1 IH1 | n r1 IH1
                 | c | c | i r1 IH1 | | ]; intros pos u rest c0 c1 k Hs Hk.
  - destruct Hs as [-> ->]. simpl.
    now rewrite startswith_append, drop_append.
  - destruct Hs as (a & -> & Hc & ->). simpl in *. rewrite Hc.
    now rewrite Nat.add_1_r in Hk.
  - destruct Hs as (u1 & u2 & cm & -> & Hs1 & Hs2). simpl.
    rewrite append_assoc. apply IH1 with (c1 := cm); [exact Hs1|].
    apply IH2 with (c1 := c1); [exact Hs2|].
    now rewrite length_append, Nat.add_assoc in Hk.
  - simpl. destruct Hs as [Hs | Hs].
    + specialize (IH1 _ _ _ _ _ _ Hs Hk).
      destruct (run r1 pos (u ++ rest) c0 k); [reflexivity | discriminate].
    + specialize (IH2 _ _ _ _ _ _ Hs Hk).
      destruct (run r1 pos (u ++ rest) c0 k); [reflexivity | exact IH2].
  - simpl. destruct Hs as [Hs | [-> ->]].
    + specialize (IH1 _ _ _ _ _ _ Hs Hk).
      destruct (run r1 pos (u ++ rest) c0 k); [reflexivity | discriminate].
    + simpl in *. rewrite Nat.add_0_r in Hk.
      destruct (run r1 pos rest c0 k); [reflexivity | exact Hk].
  - revert pos u c0 k Hs Hk.
    induction n as [|n IHn]; intros pos u c0 k Hs Hk.
    + destruct Hs as [-> ->]. simpl in *. now rewrite Nat.add_0_r in Hk.
    + apply spans_rep_S in Hs as (u1 & u2 & cm & -> & Hs1 & Hs2).
      rewrite run_rep_S, append_assoc.
      apply IH1 with (c1 := cm); [exact Hs1|].
      apply IHn; [exact Hs2|].
      now rewrite length_append, Nat.add_assoc in Hk.
  - destruct Hs as [Hall ->]. simpl. now apply star_lazy_complete.
  - destruct Hs as [Hall ->]. simpl. now apply star_greedy_complete.
  - destruct Hs as (cm & Hs & ->). simpl.
    apply IH1 with (c1 := cm); [exact Hs|].
    replace (pos + String.length u - pos) with (String.length u) by lia.
    now rewrite take_append.
  - destruct Hs as (-> & -> & ->). simpl in *. exact Hk.
  - destruct Hs as (-> & Hrest & ->). simpl in *. rewrite Nat.add_0_r in Hk.
    destruct Hrest as [-> | ->]; simpl; exact Hk.
Qed.

(** With a final continuation that accepts everything, a match exists
    exactly when some prefix is denoted. *)
Corollary rmatch_some_iff r s :
  is_some (rmatch r s) = true
  <-> exists u rest caps, s = u ++ rest /\ spans r 0 u rest [] caps.
Proof.
  unfold rmatch. split.
  - destruct (run r 0 s [] _) as [res|] eqn:H; [|discriminate]. intros _.
    apply run_sound in H as (u & rest & caps & ? & ? & _).
    now exists u, rest, caps.
  - intros (u & rest & caps & -> & Hs).
    now apply run_complete with (c1 := caps).
Qed.

(** A repetition of a class takes exactly that many characters of it. *)
Lemma spans_rep_class n c : forall pos u rest c0 c1,
  spans (Rep n (Class c)) pos u rest c0 c1
  <-> String.length u = n /\ Str.all c u = true /\ c1 = c0.
Proof.
  induction n as [|n IH]; intros pos u rest c0 c1.
  - simpl. split.
    + intros [-> ->]. repeat split.
    + intros (Hl & _ & ->). destruct u; [split; reflexivity | discriminate].
  - rewrite spans_rep_S. split.
    + intros (u1 & u2 & cm & -> & (a & -> & Ha & ->) & H).
      apply IH in H as (Hl & Hall & ->). simpl. rewrite Ha, Hl, Hall.
      repeat split.
    + intros (Hl & Hall & ->). destruct u as [|a u]; [discriminate|].
      simpl in Hl, Hall. apply andb_true_iff in Hall as [Ha Hall].
      injection Hl as Hl.
      exists (String a ""), u, c0. split; [reflexivity|].
      split; [now exists a|]. apply IH. now repeat split.
Qed.

End MatcherComplete.

(** ** The two patterns of the program *)

Section Patterns.

Lemma spans_seq r1 r2 pos u rest c0 c1 :
  spans (Seq r1 r2) pos u rest c0 c1
  <-> exists u1 u2 cm, u = u1 ++ u2
        /\ spans r1 pos u1 (u2 ++ rest) c0 cm
        /\ spans r2 (pos + String.length u1) u2 rest cm c1.
Proof. reflexivity. Qed.

Lemma spans_lit l pos u rest c0 c1 :
  spans (Lit l) pos u rest c0 c1 <-> u = l /\ c1 = c0.
Proof. reflexivity. Qed.

Lemma spans_alt r1 r2 pos u rest c0 c1 :
  spans (Alt r1 r2) pos u rest c0 c1
  <-> spans r1 pos u rest c0 c1 \/ spans r2 pos u rest c0 c1.
Proof. reflexivity. Qed.

Lemma spans_opt r1 pos u rest c0 c1 :
  spans (Opt r1) pos u rest c0 c1
  <-> spans r1 pos u rest c0 c1 \/ (u = "" /\ c1 = c0).
Proof. reflexivity. Qed.

Lemma spans_group i r1 pos u rest c0 c1 :
  spans (Group i r1) pos u rest c0 c1
  <-> exists cm, spans r1 pos u rest c0 cm /\ c1 = (i, u) :: cm.
Proof. reflexivity. Qed.

Lemma spans_star_lazy c pos u rest c0 c1 :
  spans (StarLazy c) pos u rest c0 c1 <-> Str.all c u = true /\ c1 = c0.
Proof. reflexivity. Qed.

Lemma spans_star_greedy c pos u rest c0 c1 :
  spans (StarGreedy c) pos u rest c0 c1 <-> Str.all c u = true /\ c1 = c0.
Proof. reflexivity. Qed.

Lemma spans_bol pos u rest c0 c1 :
  spans Bol pos u rest c0 c1 <-> pos = 0 /\ u = "" /\ c1 = c0.
Proof. reflexivity. Qed.

Lemma spans_eol pos u rest c0 c1 :
  spans Eol pos u rest c0 c1
  <-> u = "" /\ (rest = "" \/ rest = eol) /\ c1 = c0.
Proof. reflexivity. Qed.

End Patterns.

(** Take a [spans] hypothesis apart, one construct at a time. *)
Ltac spans_inv :=
  repeat match goal with
    | H : spans (Seq _ _) _ _ _ _ _ |- _ =>
        apply (proj1 (spans_seq _ _ _ _ _ _ _)) in H; destruct H as (? & ? & ? & ? & ? & ?)
    | H : spans (Lit _) _ _ _ _ _ |- _ =>
        apply (proj1 (spans_lit _ _ _ _ _ _)) in H; destruct H as (? & ?)
    | H : spans (Rep _ (Class _)) _ _ _ _ _ |- _ =>
        apply (proj1 (spans_rep_class _ _ _ _ _ _ _)) in H; destruct H as (? & ? & ?)
    | H : spans (Alt _ _) _ _ _ _ _ |- _ =>
        apply (proj1 (spans_alt _ _ _ _ _ _ _)) in H; destruct H as [H | H]
    | H : spans (Opt _) _ _ _ _ _ |- _ =>
        apply (proj1 (spans_opt _ _ _ _ _ _)) in H; destruct H as [H | (? & ?)]
    | H : spans (Group _ _) _ _ _ _ _ |- _ =>
        apply (proj1 (spans_group _ _ _ _ _ _ _)) in H; destruct H as (? & ? & ?)
    | H : spans (StarLazy _) _ _ _ _ _ |- _ =>
        apply (proj1 (spans_star_lazy _ _ _ _ _ _)) in H; destruct H as (? & ?)
    | H : spans (StarGreedy _) _ _ _ _ _ |- _ =>
        apply (proj1 (spans_star_greedy _ _ _ _ _ _)) in H; destruct H as (? & ?)
    | H : spans Bol _ _ _ _ _ |- _ =>
        apply (proj1 (spans_bol _ _ _ _ _)) in H; destruct H as (? & ? & ?)
    | H : spans Eol _ _ _ _ _ |- _ =>
        apply (proj1 (spans_eol _ _ _ _ _)) in H; destruct H as (? & ? & ?)
    end.

(** Build a [spans] fact for a sequence, piece by piece. *)
Ltac spans_seq_intro u1 u2 c :=
  apply spans_seq; exists u1, u2, c; split; [reflexivity | split].

Section PatternShapes.

(** What [find_backup_file] accepts: the text of the pattern at the
    start of the candidate, and anything after it. *)
Theorem is_backup_iff conflict_base ext candidate :
  is_backup conflict_base ext candidate = true
  <-> exists d8 d6 rest,
        candidate = ".stversions/" ++ conflict_base ++ "~" ++ d8 ++ "-"
                    ++ d6 ++ "." ++ ext ++ rest
        /\ String.length d8 = 8 /\ Str.all digit d8 = true
        /\ String.length d6 = 6 /\ Str.all digit d6 = true.
Proof.
  unfold is_backup. rewrite rmatch_some_iff. unfold backup_pattern. split.
  - intros (u & rest & caps & -> & H). spans_inv. subst.
    match goal with
    | H8 : String.length ?a = 8, H6 : String.length ?b = 6 |- _ =>
        exists a, b, rest
    end.
    repeat rewrite append_assoc. simpl. auto.
  - intros (d8 & d6 & rest & -> & H8 & A8 & H6 & A6).
    exists (".stversions" ++ "/" ++ conflict_base ++ "~" ++ d8 ++ "-" ++ d6
            ++ "." ++ ext), rest, [].
    split; [repeat rewrite append_assoc; reflexivity|].
    unfold STVERSIONS_DIR.
    repeat (apply spans_seq; do 3 eexists;
            split; [reflexivity | split; [|]]);
      try (apply spans_lit; split; reflexivity);
      try (apply spans_rep_class; repeat split; assumption).
Qed.

End PatternShapes.

Section ConflictPattern.

Local Ltac shape_eq :=
  repeat rewrite append_assoc; simpl; repeat rewrite append_nil_r;
  reflexivity.

(** The groups of a match cut the path as the grammar says. *)
Theorem conflict_groups_shape p base ext :
  conflict_groups p = Some (base, ext) ->
  exists tail, (tail = "" \/ tail = eol) /\ conflict_shape p base ext tail.
Proof.
  unfold conflict_groups, rmatch.
  destruct (run CONFLICT_REGEX 0 p [] _) as [caps|] eqn:H; [|discriminate].
  intros Hg. apply run_sound in H as (u & rest & caps' & -> & H & Hk).
  injection Hk as <-. unfold CONFLICT_REGEX in H.
  spans_inv; subst; simpl in Hg; injection Hg as <- <-;
    match goal with
    | Ht : ?t = "" \/ ?t = eol |- _ => exists t; split; [exact Ht|]
    end;
    unfold conflict_shape;
    match goal with
    | H8 : String.length ?a = 8, H6 : String.length ?b = 6,
      H7 : String.length ?c = 7 |- _ =>
        first [ exists ".", a, b, c, "."; split; [shape_eq|]
              | exists ".", a, b, c, ""; split; [shape_eq|]
              | exists "%2F", a, b, c, "."; split; [shape_eq|]
              | exists "%2F", a, b, c, ""; split; [shape_eq|] ]
    end;
    repeat split; auto.
Qed.

(** Every one-line name of the grammar matches. *)
Theorem conflict_name_matches p :
  conflict_name p -> is_conflict p = true.
Proof.
  intros (base & ext & sep & d8 & d6 & w7 & odot & -> & Hsep & H8 & A8 & H6
          & A6 & H7 & A7 & Hdot & Ab & Ae).
  unfold is_conflict. apply rmatch_some_iff.
  exists ("" ++ base ++ sep ++ "sync-conflict-" ++ d8 ++ "-" ++ d6 ++ "-"
          ++ w7 ++ odot ++ ext ++ ""), "", [(2, ext); (1, base)].
  split; [simpl; repeat rewrite append_nil_r; reflexivity|].
  unfold CONFLICT_REGEX.
  spans_seq_intro "" (base ++ sep ++ "sync-conflict-" ++ d8 ++ "-" ++ d6
                      ++ "-" ++ w7 ++ odot ++ ext ++ "") (@nil (nat * string)).
  { apply spans_bol. auto. }
  spans_seq_intro base (sep ++ "sync-conflict-" ++ d8 ++ "-" ++ d6
                      ++ "-" ++ w7 ++ odot ++ ext ++ "") [(1, base)].
  { apply spans_group. exists []. split; [|reflexivity].
    apply spans_star_lazy. auto. }
  spans_seq_intro sep ("sync-conflict-" ++ d8 ++ "-" ++ d6
                      ++ "-" ++ w7 ++ odot ++ ext ++ "") [(1, base)].
  { apply spans_alt. destruct Hsep as [-> | ->]; [left | right];
      apply spans_lit; auto. }
  spans_seq_intro "sync-conflict-" (d8 ++ "-" ++ d6
                      ++ "-" ++ w7 ++ odot ++ ext ++ "") [(1, base)].
  { apply spans_lit; auto. }
  spans_seq_intro d8 ("-" ++ d6 ++ "-" ++ w7 ++ odot ++ ext ++ "")
    [(1, base)].
  { apply spans_rep_class; auto. }
  spans_seq_intro "-" (d6 ++ "-" ++ w7 ++ odot ++ ext ++ "") [(1, base)].
  { apply spans_lit; auto. }
  spans_seq_intro d6 ("-" ++ w7 ++ odot ++ ext ++ "") [(1, base)].
  { apply spans_rep_class; auto. }
  spans_seq_intro "-" (w7 ++ odot ++ ext ++ "") [(1, base)].
  { apply spans_lit; auto. }
  spans_seq_intro w7 (odot ++ ext ++ "") [(1, base)].
  { apply spans_rep_class; auto. }
  spans_seq_intro odot (ext ++ "") [(1, base)].
  { apply spans_opt. destruct Hdot as [-> | ->]; [right | left]; auto.
    apply spans_lit; auto. }
  spans_seq_intro ext "" [(2, ext); (1, base)].
  { apply spans_group. exists [(1, base)]. split; [|reflexivity].
    apply spans_star_greedy. auto. }
  apply spans_eol. auto.
Qed.

End ConflictPattern.

Section MonadFacts.

Lemma files_traced e w : files (traced e w) = files w.
Proof. reflexivity. Qed.

Lemma environ_traced e w : environ (traced e w) = environ w.
Proof. reflexivity. Qed.

Lemma log_run_eq message w :
  log_run message w =
  (Ok tt, set_logfile (logfile w ++ [log_line (environ w) message])%list
            (traced (LogWrite (log_line (environ w) message)) w)).
Proof. reflexivity. Qed.

Lemma find_backup_file_eq base ext w :
  find_backup_file base ext w =
  (Ok (find (is_backup base ext) (backup_candidates (files w))),
   traced (Walk STVERSIONS_DIR) w).
Proof. reflexivity. Qed.

Lemma find_conflict_files_eq w :
  find_conflict_files "." w = (Ok (conflicts_of (files w)), traced (Walk ".") w).
Proof. reflexivity. Qed.

Lemma is_obsidian_running_eq w :
  is_obsidian_running w =
  (match pgrep (environ w) with
   | Exited c => Ok (c =? 0)%Z
   | NotLaunched => Raised (FileNotFoundError "pgrep")
   end,
   traced (CheckOutput ["pgrep"; "-x"; "Obsidian"]) w).
Proof.
  unfold is_obsidian_running, try_except, check_output, bind, emit, ask, ret,
    raise.
  simpl. destruct (pgrep (environ w)) as [[| |]|]; reflexivity.
Qed.

End MonadFacts.

(** ** Facts about the file tree *)

Section FsFacts.

Lemma lookup_write q p now d t :
  Fs.lookup q (Fs.write p now d t) =
  if String.eqb q (Fs.normpath p)
  then match Fs.lookup q t with
       | Some _ => Some (Regular now d)
       | None => None
       end
  else Fs.lookup q t.
Proof.
  induction t as [|[k n] t IH]; simpl.
  - now destruct (String.eqb q (Fs.normpath p)).
  - destruct (String.eqb (Fs.normpath p) k) eqn:Hpk; simpl.
    + apply String.eqb_eq in Hpk. subst k.
      destruct (String.eqb q (Fs.normpath p)); [reflexivity | exact IH].
    + destruct (String.eqb q k) eqn:Hqk.
      * apply String.eqb_eq in Hqk. subst k.
        rewrite String.eqb_sym in Hpk. now rewrite Hpk.
      * exact IH.
Qed.


(** A path keeps at least its part after the leading [./]s. *)
Lemma normpath_length_pair s :
  String.length (Fs.normpath s) <= String.length s
  /\ forall a, String.length (Fs.normpath (String a s)) <= S (String.length s).
Proof.
  induction s as [|b s [IH1 IH2]]; [simpl; auto|].
  split; [apply IH2|].
  intros a. cbn [Fs.normpath].
  destruct (Ascii.eqb a "." && Ascii.eqb b "/"); simpl; lia.
Qed.

Lemma normpath_length s : String.length (Fs.normpath s) <= String.length s.
Proof. apply normpath_length_pair. Qed.

Lemma normpath_firm x : firm_head x -> Fs.normpath x = x.
Proof.
  destruct x as [|a [|b x]]; simpl; try easy.
  intros [_ ->]. now rewrite andb_false_r.
Qed.

(** Two paths with the same base, the first with the shorter remainder:
    normalising keeps the first one shorter. *)
Lemma normpath_shorter_pair x y base :
  firm_head x -> String.length y < String.length x ->
  String.length (Fs.normpath (base ++ y))
    < String.length (Fs.normpath (base ++ x))
  /\ forall a,
       String.length (Fs.normpath (String a (base ++ y)))
         < String.length (Fs.normpath (String a (base ++ x))).
Proof.
  intros Hx Hlen.
  assert (Hx0 : Fs.normpath x = x) by now apply normpath_firm.
  induction base as [|b base [IH1 IH2]].
  - simpl. split.
    + rewrite Hx0. pose proof (normpath_length y). lia.
    + intros a. destruct x as [|c [|d x]]; simpl in Hx; try easy.
      destruct Hx as [Hc Hd]. cbn [Fs.normpath]. rewrite Hc, andb_false_r.
      pose proof (proj2 (normpath_length_pair y) a).
      simpl in *. lia.
  - split; [apply IH2|].
    intros a. simpl. destruct (Ascii.eqb a "." && Ascii.eqb b "/").
    + exact IH1.
    + simpl. rewrite !length_append. lia.
Qed.

Lemma normpath_shorter x y base :
  firm_head x -> String.length y < String.length x ->
  Fs.normpath (base ++ y) <> Fs.normpath (base ++ x).
Proof.
  intros Hx Hlen Heq.
  pose proof (proj1 (normpath_shorter_pair x y base Hx Hlen)) as H.
  rewrite Heq in H. lia.
Qed.

End FsFacts.

(** ** How [process_conflict] runs *)

Section ProcessConflict.

(** The original of a conflict path is another file than the artifact. *)
Lemma original_differs p base ext :
  conflict_groups p = Some (base, ext) ->
  Fs.normpath (original_of base ext) <> Fs.normpath p.
Proof.
  intros H. apply conflict_groups_shape in H as (tail & _ & H).
  destruct H as (sep & d8 & d6 & w7 & odot & -> & Hsep & H8 & _ & H6 & _
                 & H7 & _ & _ & _ & _).
  assert (Hy : exists y, original_of base ext = base ++ y
                         /\ String.length y <= 1 + String.length ext).
  { unfold original_of. destruct ext as [|a ext]; simpl.
    - exists "". split; [now rewrite append_nil_r | simpl; lia].
    - exists (String "." (String a ext)). simpl. split; [reflexivity | lia]. }
  destruct Hy as (y & -> & Hy).
  apply normpath_shorter.
  - destruct Hsep as [-> | ->]; simpl; auto.
  - rewrite !length_append, H8, H6, H7.
    destruct Hsep as [-> | ->]; simpl; lia.
Qed.

Lemma backup_nonempty base ext l b :
  find (is_backup base ext) l = Some b -> nonempty b = true.
Proof.
  intros H. apply find_some in H as [_ H].
  apply is_backup_iff in H as (d8 & d6 & rest & -> & _). reflexivity.
Qed.

Lemma merge_files_fst original backup conflict w :
  fst (merge_files original backup conflict w)
  = Ok (merge_exit (environ w) (files w) original backup conflict =? 0)%Z.
Proof.
  unfold merge_files, bind, run_git_merge_file, merge_exit, ret.
  destruct (Fs.read original (files w)), (Fs.read backup (files w)),
    (Fs.read conflict (files w)); try reflexivity.
  now destruct (git (environ w) s s0 s1) as [rc [m|]].
Qed.

(** The merge command touches the original and nothing else. *)
Lemma merge_files_snd original backup conflict w :
  let w' := snd (merge_files original backup conflict w) in
  environ w' = environ w /\ logfile w' = logfile w
  /\ trace w' = (trace w ++ [Run ["git"; "merge-file"; "--union";
                                  original; backup; conflict]])%list
  /\ (forall q, q <> Fs.normpath original ->
        Fs.lookup q (files w') = Fs.lookup q (files w))
  /\ (forall q, Fs.lookup q (files w) = None <->
                Fs.lookup q (files w') = None).
Proof.
  unfold merge_files, bind, run_git_merge_file, ret.
  destruct (Fs.read original (files w)), (Fs.read backup (files w)),
    (Fs.read conflict (files w)); simpl; try (repeat split; auto; tauto).
  destruct (git (environ w) s s0 s1) as [rc [m|]]; simpl;
    try (repeat split; auto; tauto).
  repeat split; auto.
  - intros q Hq. rewrite lookup_write.
    apply String.eqb_neq in Hq. now rewrite Hq.
  - intros Hq. rewrite lookup_write, Hq.
    now destruct (String.eqb q (Fs.normpath original)).
  - rewrite lookup_write.
    destruct (String.eqb q (Fs.normpath original)); [|auto].
    now destruct (Fs.lookup q (files w)).
Qed.

(** A merge that exits with 0 has read the artifact. *)
Lemma merge_exit_zero_reads e t original backup conflict :
  merge_exit e t original backup conflict = 0%Z ->
  exists m d, Fs.lookup (Fs.normpath conflict) t = Some (Regular m d).
Proof.
  unfold merge_exit, Fs.read.
  destruct (Fs.lookup (Fs.normpath original) t) as [[? ?|]|]; try discriminate.
  destruct (Fs.lookup (Fs.normpath backup) t) as [[? ?|]|]; try discriminate.
  destruct (Fs.lookup (Fs.normpath conflict) t) as [[m d|]|];
    try discriminate.
  intros _. now exists m, d.
Qed.

(** The outcome of [process_conflict] on a path that matches, case by
    case. *)
Lemma process_conflict_cases p base ext w :
  conflict_groups p = Some (base, ext) ->
  let original := original_of base ext in
  let w1 := traced (Isfile original (Fs.is_file original (files w))) w in
  let w2 := traced (Walk STVERSIONS_DIR) w1 in
  process_conflict p w =
  if Fs.is_file original (files w) then
    match find (is_backup base ext) (backup_candidates (files w)) with
    | Some b =>
        let w3 := snd (merge_files original b p w2) in
        if (merge_exit (environ w) (files w) original b p =? 0)%Z
        then (Ok true, set_files (Fs.unlink p (files w3)) (traced (Remove p) w3))
        else (Ok false, w3)
    | None => (Ok false, w2)
    end
  else (Ok false, traced (Isfile original false) w).
Proof.
  intros H original w1 w2. unfold process_conflict. rewrite H.
  fold original. unfold bind at 1. unfold isfile at 1.
  destruct (Fs.is_file original (files w)) eqn:Hf; [|reflexivity].
  cbn [negb]. unfold bind at 1. rewrite find_backup_file_eq.
  rewrite files_traced.
  destruct (find (is_backup base ext) (backup_candidates (files w)))
    as [b|] eqn:Hb; [|reflexivity].
  rewrite (backup_nonempty _ _ _ _ Hb). cbn [negb].
  unfold bind at 1. fold w1. fold w2.
  pose proof (merge_files_fst original b p w2) as Hfst.
  pose proof (merge_files_snd original b p w2) as Hsnd.
  assert (Hfiles : files w2 = files w) by reflexivity.
  assert (Henv : environ w2 = environ w) by reflexivity.
  cbv zeta in Hsnd. rewrite Hfiles, Henv in Hfst. rewrite Hfiles in Hsnd.
  destruct (merge_files original b p w2) as [r w3]. simpl in Hfst, Hsnd |- *.
  subst r.
  destruct (merge_exit (environ w) (files w) original b p =? 0)%Z eqn:Hz;
    [|reflexivity].
  apply Z.eqb_eq in Hz. apply merge_exit_zero_reads in Hz as (m & d & Hp).
  destruct Hsnd as (_ & _ & _ & Hother & _).
  assert (Hp3 : Fs.lookup (Fs.normpath p) (files w3) = Some (Regular m d)).
  { rewrite Hother; [exact Hp|].
    intros Heq. symmetry in Heq. revert Heq. now apply original_differs. }
  unfold bind, os_remove, ret. now rewrite Hp3.
Qed.

End ProcessConflict.

(** ** The claims about [process_conflict] *)

Section ProcessConflictClaims.


(** C5. When the reconstructed original of a conflict path is not a
    file, [process_conflict] returns false and leaves the tree, and so the
    artifact, as it was. *)
Theorem process_conflict_original_absent p base ext w :
  conflict_groups p = Some (base, ext) ->
  fst (isfile (original_of base ext) w) = Ok false ->
  fst (process_conflict p w) = Ok false
  /\ files (snd (process_conflict p w)) = files w.
Proof.
  intros H Hf. rewrite (process_conflict_cases p base ext w H).
  cbn [isfile fst] in Hf. injection Hf as Hf. rewrite Hf. auto.
Qed.

(** C10. On a path that [CONFLICT_REGEX] does not match,
    [process_conflict] returns false at once: the world is the same, no
    call to the outside is traced. *)
Theorem process_conflict_no_match p w :
  rmatch CONFLICT_REGEX p = None ->
  process_conflict p w = (Ok false, w).
Proof.
  intros H. unfold process_conflict, conflict_groups. now rewrite H.
Qed.

End ProcessConflictClaims.

(** ** How the quiescence checks run *)

Section GateFacts.



Lemma changed_recently_eq now seconds p w :
  changed_recently now seconds p w =
  (Ok (recent_at now seconds (files w) p),
   traced (Getmtime p (match Fs.lookup (Fs.normpath p) (files w) with
                       | Some (Regular t _) => Some t
                       | _ => None
                       end)) w).
Proof.
  unfold changed_recently, try_except, bind, getmtime, ret, recent_at.
  destruct (Fs.lookup (Fs.normpath p) (files w)) as [[t d|]|]; reflexivity.
Qed.



End GateFacts.

(** ** The claims about the quiescence checks *)

Section GateClaims.

(** C4, as amended. [is_obsidian_running] answers by the exit status of
    the process query when the query ran: true on status 0, false on every
    other status, whether that status means no such process or an error
    of the query; when the query cannot be started the exception is not
    caught. *)
Theorem is_obsidian_running_by_exit_status w :
  fst (is_obsidian_running w) =
  match pgrep (environ w) with
  | Exited c => Ok (c =? 0)%Z
  | NotLaunched => Raised (FileNotFoundError "pgrep")
  end.
Proof. now rewrite is_obsidian_running_eq. Qed.

(** C4, as stated, fails: here the query itself fails and
    [is_obsidian_running] does not return false. *)
Lemma is_obsidian_running_query_not_started :
  pgrep (environ no_pgrep_world) = NotLaunched
  /\ fst (is_obsidian_running no_pgrep_world) <> Ok false
  /\ fst (main no_pgrep_world) = Raised (FileNotFoundError "pgrep").
Proof. repeat split. vm_compute. discriminate. Qed.



End GateClaims.

(** ** The claims about the backup resolver *)

Section BackupClaims.

Lemma find_first {A : Type} (f : A -> bool) (l : list A) (b : A) :
  find f l = Some b ->
  exists pre post,
    l = (pre ++ b :: post)%list /\ f b = true
    /\ forall c, In c pre -> f c = false.
Proof.
  induction l as [|a l IH]; simpl; [discriminate|].
  destruct (f a) eqn:Ha.
  - intros H. injection H as ->. exists [], l. simpl. tauto.
  - intros H. apply IH in H as (pre & post & -> & Hb & Hpre).
    exists (a :: pre), post. simpl. split; [reflexivity|].
    split; [exact Hb|]. intros c [<- | Hc]; auto.
Qed.

(** C2, at the inputs where the code leaves the claim: with an empty
    extension the pattern still asks for a dot after the time stamp, so
    the backup of an extension-less file is refused and its conflict is
    never resolved; and a candidate that goes on after the extension is
    accepted. *)
Theorem find_backup_file_extension_slips :
  is_backup "README" "" ".stversions/README~20240101-120000" = false
  /\ fst (find_backup_file "README" "" readme_world) = Ok None
  /\ fst (process_conflict readme_conflict readme_world) = Ok false
  /\ is_backup "notes/a" "md" ".stversions/notes/a~20240101-120000.mdx"
     = true.
Proof. vm_compute. auto. Qed.

(** C6. [find_backup_file] returns the first candidate of the walk that
    the pattern accepts, which need not be the most recent one, and
    returns None exactly when the pattern accepts no candidate. *)
Theorem find_backup_file_first_match conflict_base ext w :
  exists r,
    fst (find_backup_file conflict_base ext w) = Ok r
    /\ (r = None <->
        forall c, In c (backup_candidates (files w)) ->
                  is_backup conflict_base ext c = false)
    /\ (forall b, r = Some b ->
        exists pre post,
          backup_candidates (files w) = (pre ++ b :: post)%list
          /\ is_backup conflict_base ext b = true
          /\ forall c, In c pre -> is_backup conflict_base ext c = false)
    /\ fst (find_backup_file "notes/a" "md" two_backups_world)
       = Ok (Some ".stversions/notes/a~20230101-120000.md").
Proof.
  rewrite find_backup_file_eq. cbn [fst]. eexists. split; [reflexivity|].
  split; [|split].
  - split.
    + intros H c Hc. exact (find_none _ _ H c Hc).
    + intros H.
      destruct (find (is_backup conflict_base ext)
                  (backup_candidates (files w))) as [b|] eqn:Hb;
        [|reflexivity].
      apply find_some in Hb as [Hin Hb]. rewrite (H b Hin) in Hb.
      discriminate.
  - intros b Hb. now apply find_first.
  - vm_compute. reflexivity.
Qed.

End BackupClaims.

(** ** The claims about the scanner and the run *)

Section RunFacts.

Lemma is_conflict_iff p :
  is_conflict p = true <-> exists base ext, conflict_groups p = Some (base, ext).
Proof.
  unfold is_conflict, conflict_groups.
  destruct (rmatch CONFLICT_REGEX p) as [m|]; simpl; split;
    try discriminate; eauto.
  intros (b & e & H). discriminate.
Qed.

Lemma process_conflict_first_event p base ext w :
  conflict_groups p = Some (base, ext) ->
  exists evs,
    trace (snd (process_conflict p w)) =
    (trace w ++ Isfile (original_of base ext)
                  (Fs.is_file (original_of base ext) (files w)) :: evs)%list.
Proof.
  intros H. rewrite (process_conflict_cases p base ext w H).
  set (original := original_of base ext).
  destruct (Fs.is_file original (files w)); [|now exists []].
  set (w2 := traced (Walk STVERSIONS_DIR) (traced (Isfile original true) w)).
  destruct (find (is_backup base ext) (backup_candidates (files w))) as [b|].
  2:{ exists [Walk STVERSIONS_DIR]. simpl. now rewrite <- app_assoc. }
  pose proof (merge_files_snd original b p w2) as Hsnd. cbv zeta in Hsnd.
  destruct Hsnd as (_ & _ & Htr & _).
  destruct (merge_exit (environ w) (files w) original b p =? 0)%Z;
    cbn [snd trace set_files traced]; rewrite Htr; unfold w2; simpl;
    rewrite <- !app_assoc; simpl; eexists; reflexivity.
Qed.

(** [process_conflict] always returns, and keeps its hands off the log
    and the environment. *)
Lemma process_conflict_returns p w :
  exists b,
    fst (process_conflict p w) = Ok b
    /\ environ (snd (process_conflict p w)) = environ w
    /\ logfile (snd (process_conflict p w)) = logfile w.
Proof.
  destruct (conflict_groups p) as [[base ext]|] eqn:H.
  2:{ unfold process_conflict. rewrite H. now exists false. }
  rewrite (process_conflict_cases p base ext w H).
  set (original := original_of base ext).
  destruct (Fs.is_file original (files w)); [|now exists false].
  set (w2 := traced (Walk STVERSIONS_DIR) (traced (Isfile original true) w)).
  destruct (find (is_backup base ext) (backup_candidates (files w))) as [b|];
    [|now exists false].
  pose proof (merge_files_snd original b p w2) as Hsnd. cbv zeta in Hsnd.
  destruct Hsnd as (He & Hl & _).
  destruct (merge_exit (environ w) (files w) original b p =? 0)%Z;
    eexists; (split; [reflexivity|]); cbn; rewrite ?He, ?Hl; auto.
Qed.


(** The loop of [main] collects what [resolved_in_order] lists. *)
Lemma process_all_eq cs : forall acc w,
  process_all cs acc w =
  (Ok (acc ++ fst (resolved_in_order cs w))%list,
   snd (resolved_in_order cs w)).
Proof.
  induction cs as [|c cs IH]; intros acc w; simpl.
  - now rewrite app_nil_r.
  - unfold bind at 1.
    destruct (process_conflict_returns c w) as (b & Hb & _).
    destruct (process_conflict c w) as [r w1]. simpl in Hb. subst r.
    rewrite IH. destruct (resolved_in_order cs w1) as [rs w2]. simpl.
    destruct b; [now rewrite <- app_assoc | reflexivity].
Qed.

End RunFacts.

Section RunClaims.

(** C3. A path of the conflict-naming grammar is accepted by the test of
    [find_conflict_files], and [process_conflict] derives from it the
    groups of that same match: a base and an extension that cut the path
    as the grammar says, and on which it goes to work. The scanner accepts
    a path exactly when [process_conflict] derives a pair from it. *)
Theorem conflict_pair_agrees p w :
  conflict_name p ->
  is_conflict p = true
  /\ (exists base ext,
        conflict_groups p = Some (base, ext)
        /\ (exists tail, (tail = "" \/ tail = eol)
                         /\ conflict_shape p base ext tail)
        /\ exists evs,
             trace (snd (process_conflict p w)) =
             (trace w ++ Isfile (original_of base ext)
                           (Fs.is_file (original_of base ext) (files w))
                         :: evs)%list)
  /\ (forall q, is_conflict q = true
                <-> exists base ext, conflict_groups q = Some (base, ext))
  /\ conflict_groups "notes/todo.sync-conflict-20240101-120000-abc1234.md"
     = Some ("notes/todo", "md").
Proof.
  intros Hp. pose proof (conflict_name_matches p Hp) as Hc.
  split; [exact Hc|]. split; [|split].
  - apply is_conflict_iff in Hc as (base & ext & Hg).
    exists base, ext. split; [exact Hg|]. split.
    + now apply conflict_groups_shape.
    + now apply process_conflict_first_event.
  - exact is_conflict_iff.
  - vm_compute. reflexivity.
Qed.


End RunClaims.

(** ** The claims at work on the example worlds *)


(** C5 on the scenario without its original. *)
Lemma process_conflict_original_absent_demo :
  conflict_groups demo_conflict = Some ("notes/a", "md")
  /\ fst (isfile (original_of "notes/a" "md") orphan_world) = Ok false
  /\ fst (process_conflict demo_conflict orphan_world) = Ok false
  /\ files (snd (process_conflict demo_conflict orphan_world))
     = files orphan_world.
Proof.
  split; [vm_compute; reflexivity|]. split; [vm_compute; reflexivity|].
  apply (process_conflict_original_absent
           demo_conflict "notes/a" "md" orphan_world);
    vm_compute; reflexivity.
Defined.

(** C10 on the original of the scenario, which is no conflict path. *)
Lemma process_conflict_no_match_demo :
  rmatch CONFLICT_REGEX "notes/a.md" = None
  /\ process_conflict "notes/a.md" demo_world = (Ok false, demo_world).
Proof.
  split; [vm_compute; reflexivity|].
  apply (process_conflict_no_match "notes/a.md" demo_world).
  vm_compute. reflexivity.
Defined.


(** C3 on the path of the specification. *)
Lemma conflict_pair_agrees_todo :
  is_conflict "notes/todo.sync-conflict-20240101-120000-abc1234.md" = true.
Proof.
  refine (proj1 (conflict_pair_agrees
                   "notes/todo.sync-conflict-20240101-120000-abc1234.md"
                   demo_world _)).
  exists "notes/todo", "md", ".", "20240101", "120000", "abc1234", ".".
  split; [reflexivity|]. split; [left; reflexivity|].
  repeat (split; [reflexivity|]). split; [right; reflexivity|].
  split; reflexivity.
Defined.


(** C7 where artifacts are found and none is resolved. *)
Example main_nothing_resolved :
  conflicts_of (files orphan_world) = [demo_conflict]
  /\ logfile (snd (main orphan_world))
     = ["[2024-01-03 09:00:00] No conflicts found" ++ eol].
Proof. vm_compute. auto. Qed.

(** C8 on a walk that still lists a file that is gone: the scan goes on
    past it, to true when the rest is old and to false when a later file
    is recent. *)
Example no_recent_file_changes_vanished :
  fst (no_recent_file_changes "." 600
         (set_files [("gone.md", Vanished); ("old.md", Regular 1000 "x")]
            demo_world)) = Ok true
  /\ fst (no_recent_file_changes "." 600
            (set_files [("gone.md", Vanished);
                        ("new.md", Regular 999900 "x")] demo_world))
     = Ok false.
Proof. vm_compute. auto. Qed.

(** * Further properties of the code *)

(** ** The order in which the matcher tries *)

Section MatcherOrder.

(** A lazy star stops at the first length at which what follows
    succeeds. *)
Lemma star_lazy_first c s : forall pos caps k res,
  star_lazy c pos s caps k = Some res ->
  exists u rest,
    s = u ++ rest /\ Str.all c u = true
    /\ k (pos + String.length u) rest caps = Some res
    /\ forall u' rest', s = u' ++ rest' ->
         String.length u' < String.length u ->
         k (pos + String.length u') rest' caps = None.
Proof.
  induction s as [|a s IH]; intros pos caps k res H; simpl in H.
  - destruct (k pos "" caps) eqn:Hk; [|discriminate].
    exists "", "". simpl. rewrite Nat.add_0_r, Hk.
    repeat split; auto. intros u' rest' _ Hlt. simpl in Hlt. lia.
  - destruct (k pos (String a s) caps) eqn:Hk.
    + exists "", (String a s). simpl. rewrite Nat.add_0_r, Hk.
      repeat split; auto. intros u' rest' _ Hlt. simpl in Hlt. lia.
    + destruct (c a) eqn:Hc; [|discriminate].
      apply IH in H as (u & rest & -> & Hall & Hres & Hmin).
      exists (String a u), rest. simpl. rewrite Hc, Hall.
      rewrite <- Nat.add_succ_comm. repeat split; auto.
      intros [|a' u'] rest' Heq Hlt; simpl in *.
      * subst rest'. now rewrite Nat.add_0_r.
      * injection Heq as <- Heq. rewrite <- Nat.add_succ_comm.
        apply Hmin; [exact Heq | lia].
Qed.

(** A lazy star goes to the end of [u] when what follows fails at every
    shorter length and succeeds there. *)
Lemma star_lazy_at c u : forall pos rest caps k res,
  Str.all c u = true ->
  (forall u1 u2, u = u1 ++ u2 -> u2 <> "" ->
     k (pos + String.length u1) (u2 ++ rest) caps = None) ->
  k (pos + String.length u) rest caps = Some res ->
  star_lazy c pos (u ++ rest) caps k = Some res.
Proof.
  induction u as [|a u IH]; intros pos rest caps k res Hall Hfail Hk.
  - simpl in *. rewrite Nat.add_0_r in Hk.
    destruct rest; simpl; now rewrite Hk.
  - simpl in Hall. apply andb_true_iff in Hall as [Ha Hall].
    simpl. rewrite Ha.
    pose proof (Hfail "" (String a u) eq_refl) as H0.
    simpl in H0. rewrite Nat.add_0_r in H0. rewrite H0 by discriminate.
    apply IH; [exact Hall | |].
    + intros u1 u2 -> Hu2.
      specialize (Hfail (String a u1) u2 eq_refl Hu2).
      simpl in Hfail. now rewrite Nat.add_succ_comm.
    + simpl in Hk. now rewrite Nat.add_succ_comm.
Qed.

(** A greedy star takes the whole text when that succeeds. *)
Lemma star_greedy_all c u : forall pos caps k res,
  Str.all c u = true ->
  k (pos + String.length u) "" caps = Some res ->
  star_greedy c pos u caps k = Some res.
Proof.
  induction u as [|a u IH]; intros pos caps k res Hall Hk; simpl in *.
  - now rewrite Nat.add_0_r in Hk.
  - apply andb_true_iff in Hall as [Ha Hall]. rewrite Ha.
    rewrite (IH (S pos) caps k res Hall); [reflexivity|].
    now rewrite Nat.add_succ_comm.
Qed.

Lemma run_lit_append l pos s caps k :
  run (Lit l) pos (l ++ s) caps k = k (pos + String.length l) s caps.
Proof. simpl. now rewrite startswith_append, drop_append. Qed.

Lemma run_class_cons c a pos s caps k :
  run (Class c) pos (String a s) caps k
  = if c a then k (S pos) s caps else None.
Proof. reflexivity. Qed.

Lemma run_rep_class_append c d : forall n pos s caps k,
  String.length d = n -> Str.all c d = true ->
  run (Rep n (Class c)) pos (d ++ s) caps k = k (pos + n) s caps.
Proof.
  induction d as [|a d IH]; intros n pos s caps k Hn Hall; simpl in Hn;
    subst n.
  - simpl. now rewrite Nat.add_0_r.
  - simpl in Hall. apply andb_true_iff in Hall as [Ha Hall].
    rewrite run_rep_S. cbn [append]. rewrite run_class_cons, Ha.
    rewrite (IH _ (S pos) s caps k eq_refl Hall).
    now rewrite Nat.add_succ_comm.
Qed.

(** [CONFLICT_REGEX] is a lazy star before [CONFLICT_TAIL], the text of
    the star going to group 1. *)
Lemma run_conflict_regex p k :
  run CONFLICT_REGEX 0 p [] k =
  star_lazy dot 0 p []
    (fun pos' s' caps' =>
       run CONFLICT_TAIL pos' s' ((1, Str.take (pos' - 0) p) :: caps') k).
Proof. reflexivity. Qed.

End MatcherOrder.

(** ** The conflict pattern, exactly *)

Section ConflictExact.

(** The text after the base name, as the grammar has it. *)
Lemma tail_spans sep d8 d6 w7 odot ext tail pos c0 :
  (sep = "." \/ sep = "%2F") ->
  String.length d8 = 8 -> Str.all digit d8 = true ->
  String.length d6 = 6 -> Str.all digit d6 = true ->
  String.length w7 = 7 -> Str.all word w7 = true ->
  (odot = "" \/ odot = ".") -> Str.all dot ext = true ->
  (tail = "" \/ tail = eol) ->
  spans CONFLICT_TAIL pos
    (sep ++ "sync-conflict-" ++ d8 ++ "-" ++ d6 ++ "-" ++ w7 ++ odot ++ ext
     ++ "")
    tail c0 ((2, ext) :: c0).
Proof.
  intros Hsep H8 A8 H6 A6 H7 A7 Hdot Ae Htail. unfold CONFLICT_TAIL.
  spans_seq_intro sep ("sync-conflict-" ++ d8 ++ "-" ++ d6
                      ++ "-" ++ w7 ++ odot ++ ext ++ "") c0.
  { apply spans_alt. destruct Hsep as [-> | ->]; [left | right];
      apply spans_lit; auto. }
  spans_seq_intro "sync-conflict-" (d8 ++ "-" ++ d6
                      ++ "-" ++ w7 ++ odot ++ ext ++ "") c0.
  { apply spans_lit; auto. }
  spans_seq_intro d8 ("-" ++ d6 ++ "-" ++ w7 ++ odot ++ ext ++ "") c0.
  { apply spans_rep_class; auto. }
  spans_seq_intro "-" (d6 ++ "-" ++ w7 ++ odot ++ ext ++ "") c0.
  { apply spans_lit; auto. }
  spans_seq_intro d6 ("-" ++ w7 ++ odot ++ ext ++ "") c0.
  { apply spans_rep_class; auto. }
  spans_seq_intro "-" (w7 ++ odot ++ ext ++ "") c0.
  { apply spans_lit; auto. }
  spans_seq_intro w7 (odot ++ ext ++ "") c0.
  { apply spans_rep_class; auto. }
  spans_seq_intro odot (ext ++ "") c0.
  { apply spans_opt. destruct Hdot as [-> | ->]; [right | left]; auto.
    apply spans_lit; auto. }
  spans_seq_intro ext "" ((2, ext) :: c0).
  { apply spans_group. exists c0. split; [|reflexivity].
    apply spans_star_greedy. auto. }
  apply spans_eol. auto.
Qed.

(** From a shape of the grammar, [CONFLICT_TAIL] matches what follows the
    base name, whatever was matched before. *)
Lemma tail_matches p base ext tail pos c0 :
  (tail = "" \/ tail = eol) -> conflict_shape p base ext tail ->
  exists x, p = base ++ x
    /\ is_some (run CONFLICT_TAIL pos x c0 (fun _ _ caps => Some caps)) = true.
Proof.
  intros Htail (sep & d8 & d6 & w7 & odot & -> & Hsep & H8 & A8 & H6 & A6
                & H7 & A7 & Hdot & Ab & Ae).
  exists (sep ++ "sync-conflict-" ++ d8 ++ "-" ++ d6 ++ "-" ++ w7 ++ odot
          ++ ext ++ tail).
  split; [reflexivity|].
  replace (sep ++ "sync-conflict-" ++ d8 ++ "-" ++ d6 ++ "-" ++ w7 ++ odot
           ++ ext ++ tail)
    with ((sep ++ "sync-conflict-" ++ d8 ++ "-" ++ d6 ++ "-" ++ w7 ++ odot
           ++ ext ++ "") ++ tail)
    by (repeat rewrite append_assoc; reflexivity).
  apply run_complete with (c1 := (2, ext) :: c0); [|reflexivity].
  now apply tail_spans.
Qed.

(** X1. The scanner accepts exactly the paths of the conflict-naming
    grammar: a base and an extension without line break around the
    marker, with at most one line break at the very end. *)
Theorem is_conflict_iff_grammar p :
  is_conflict p = true
  <-> exists base ext tail,
        (tail = "" \/ tail = eol) /\ conflict_shape p base ext tail.
Proof.
  split.
  - intros H. apply is_conflict_iff in H as (base & ext & H).
    apply conflict_groups_shape in H as (tail & Ht & H).
    now exists base, ext, tail.
  - intros (base & ext & tail & Ht & Hs).
    assert (Hb : Str.all dot base = true).
    { destruct Hs as (? & ? & ? & ? & ? & _ & _ & _ & _ & _ & _ & _ & _ & _
                      & Hb & _). exact Hb. }
    destruct (tail_matches p base ext tail (0 + String.length base)
                [(1, base)] Ht Hs) as (x & -> & Hx).
    unfold is_conflict, rmatch. rewrite run_conflict_regex.
    apply star_lazy_complete; [exact Hb|].
    cbn beta. rewrite Nat.sub_0_r. simpl Nat.add in *.
    now rewrite take_append.
Qed.

(** X2. The base name [process_conflict] derives is the shortest one the
    grammar allows: the text before the first conflict marker of the
    path. *)
Theorem conflict_groups_shortest_base p base ext :
  conflict_groups p = Some (base, ext) ->
  forall base' ext' tail',
    (tail' = "" \/ tail' = eol) -> conflict_shape p base' ext' tail' ->
    String.length base <= String.length base'.
Proof.
  unfold conflict_groups, rmatch. rewrite run_conflict_regex.
  destruct (star_lazy dot 0 p [] _) as [caps|] eqn:H; [|discriminate].
  intros Hg base' ext' tail' Ht Hs.
  apply star_lazy_first in H as (u & rest & -> & Hall & Hk & Hmin).
  cbn beta in Hk. apply run_sound in Hk as (v & rest' & caps' & _ & Hsp & Hc).
  injection Hc as <-. unfold CONFLICT_TAIL in Hsp.
  assert (Hbase : base = u).
  { spans_inv; subst; simpl in Hg; injection Hg as <- _;
      simpl; rewrite Nat.sub_0_r; apply take_append. }
  subst base.
  destruct (Nat.le_gt_cases (String.length u) (String.length base'))
    as [Hle | Hlt]; [exact Hle | exfalso].
  destruct (tail_matches _ base' ext' tail' (0 + String.length base')
              [(1, Str.take (0 + String.length base' - 0) (u ++ rest))]
              Ht Hs) as (x & Heq & Hx).
  specialize (Hmin base' x Heq Hlt). cbn beta in Hmin.
  rewrite Hmin in Hx. discriminate.
Qed.

End ConflictExact.

(** ** From a name to its conflict artifact and back *)

Section RoundTrip.

Lemma run_seq r1 r2 pos s caps k :
  run (Seq r1 r2) pos s caps k
  = run r1 pos s caps (fun pos' s' caps' => run r2 pos' s' caps' k).
Proof. reflexivity. Qed.

Lemma run_alt r1 r2 pos s caps k :
  run (Alt r1 r2) pos s caps k
  = match run r1 pos s caps k with
    | Some res => Some res
    | None => run r2 pos s caps k
    end.
Proof. reflexivity. Qed.

Lemma run_opt r1 pos s caps k :
  run (Opt r1) pos s caps k
  = match run r1 pos s caps k with
    | Some res => Some res
    | None => k pos s caps
    end.
Proof. reflexivity. Qed.

Lemma run_lit_fail l pos s caps k :
  Str.startswith l s = false -> run (Lit l) pos s caps k = None.
Proof. intros H. simpl. now rewrite H. Qed.

Lemma take_all s : Str.take (String.length s) s = s.
Proof. induction s as [|a s IH]; simpl; [reflexivity | now rewrite IH]. Qed.

(** The end of the pattern on an extension without line break. *)
Lemma run_extension ext pos c0 :
  Str.all dot ext = true ->
  run (Group 2 (StarGreedy dot) +++ Eol)%re pos ext c0
    (fun _ _ caps => Some caps)
  = Some ((2, ext) :: c0).
Proof.
  intros He. rewrite run_seq. cbn [run].
  apply star_greedy_all; [exact He|]. cbn beta.
  replace (pos + String.length ext - pos) with (String.length ext) by lia.
  now rewrite take_all.
Qed.

(** [CONFLICT_TAIL] on the text the grammar puts after the base name: the
    optional dot is taken when it is there, the extension is all the
    rest. *)
Lemma run_conflict_tail sep d8 d6 w7 odot ext pos c0 :
  (sep = "." \/ sep = "%2F") ->
  String.length d8 = 8 -> Str.all digit d8 = true ->
  String.length d6 = 6 -> Str.all digit d6 = true ->
  String.length w7 = 7 -> Str.all word w7 = true ->
  (odot = "." \/ (odot = "" /\ Str.startswith "." ext = false)) ->
  Str.all dot ext = true ->
  run CONFLICT_TAIL pos
    (sep ++ "sync-conflict-" ++ d8 ++ "-" ++ d6 ++ "-" ++ w7 ++ odot ++ ext)
    c0 (fun _ _ caps => Some caps)
  = Some ((2, ext) :: c0).
Proof.
  intros Hsep H8 A8 H6 A6 H7 A7 Hdot Ae. unfold CONFLICT_TAIL.
  assert (Hrest : forall pos,
    run (Lit "sync-conflict-" +++ Rep 8 (Class digit) +++ Lit "-"
         +++ Rep 6 (Class digit) +++ Lit "-" +++ Rep 7 (Class word)
         +++ Opt (Lit ".") +++ Group 2 (StarGreedy dot) +++ Eol)%re pos
      ("sync-conflict-" ++ d8 ++ "-" ++ d6 ++ "-" ++ w7 ++ odot ++ ext)
      c0 (fun _ _ caps => Some caps)
    = Some ((2, ext) :: c0)).
  { intros q.
    rewrite run_seq, run_lit_append. cbn beta.
    rewrite run_seq, (run_rep_class_append digit d8 8) by assumption.
    cbn beta.
    rewrite run_seq, run_lit_append. cbn beta.
    rewrite run_seq, (run_rep_class_append digit d6 6) by assumption.
    cbn beta.
    rewrite run_seq, run_lit_append. cbn beta.
    rewrite run_seq, (run_rep_class_append word w7 7) by assumption.
    cbn beta.
    rewrite run_seq, run_opt.
    destruct Hdot as [-> | [-> Hnd]].
    - rewrite run_lit_append. cbn beta. now rewrite run_extension.
    - cbn [append]. rewrite (run_lit_fail "." _ ext) by exact Hnd.
      now rewrite run_extension. }
  rewrite run_seq, run_alt.
  destruct Hsep as [-> | ->].
  - rewrite run_lit_append. cbn beta. now rewrite Hrest.
  - rewrite (run_lit_fail "." _ ("%2F" ++ _)) by reflexivity.
    rewrite run_lit_append. cbn beta. apply Hrest.
Qed.

(** Where [CONFLICT_TAIL] matches, the text starts with a separator and
    the marker. *)
Lemma conflict_tail_head pos s c0 res :
  run CONFLICT_TAIL pos s c0 (fun _ _ caps => Some caps) = Some res ->
  exists sep' R', (sep' = "." \/ sep' = "%2F")
                  /\ s = sep' ++ "sync-conflict-" ++ R'.
Proof.
  intros H. apply run_sound in H as (v & rest & caps & -> & H & _).
  unfold CONFLICT_TAIL in H.
  spans_inv; subst;
    first [ exists "."; eexists; split; [left; reflexivity|];
            repeat rewrite append_assoc; reflexivity
          | exists "%2F"; eexists; split; [right; reflexivity|];
            repeat rewrite append_assoc; reflexivity ].
Qed.

(** A conflict marker that starts inside the text before the real one
    lies in that text. *)
Lemma marker_not_early z sep sep' R R' :
  z <> "" -> (sep = "." \/ sep = "%2F") -> (sep' = "." \/ sep' = "%2F") ->
  z ++ sep ++ "sync-conflict-" ++ R = sep' ++ "sync-conflict-" ++ R' ->
  contains "sync-conflict-" z.
Proof.
  intros Hz Hsep Hsep' H.
  destruct z as [|a0 z]; [congruence|]. clear Hz.
  destruct Hsep' as [-> | ->]; simpl in H; injection H as _ H.
  - do 14 (destruct z as [|? z];
           [ destruct Hsep as [-> | ->]; discriminate
           | simpl in H; injection H as -> H ]).
    exists (String a0 ""), z. reflexivity.
  - do 16 (destruct z as [|? z];
           [ destruct Hsep as [-> | ->]; discriminate
           | simpl in H; injection H as -> H ]).
    exists (String a0 "2F"), z. reflexivity.
Qed.

Lemma conflict_groups_round_trip_aux base sep d8 d6 w7 odot ext :
  Str.all dot base = true -> ~ contains "sync-conflict-" base ->
  (sep = "." \/ sep = "%2F") ->
  String.length d8 = 8 -> Str.all digit d8 = true ->
  String.length d6 = 6 -> Str.all digit d6 = true ->
  String.length w7 = 7 -> Str.all word w7 = true ->
  (odot = "." \/ (odot = "" /\ Str.startswith "." ext = false)) ->
  Str.all dot ext = true ->
  conflict_groups (base ++ sep ++ "sync-conflict-" ++ d8 ++ "-" ++ d6 ++ "-"
                   ++ w7 ++ odot ++ ext)
  = Some (base, ext).
Proof.
  intros Ab Hno Hsep H8 A8 H6 A6 H7 A7 Hdot Ae.
  unfold conflict_groups, rmatch. rewrite run_conflict_regex.
  rewrite (star_lazy_at dot base 0 _ [] _ [(2, ext); (1, base)]).
  - simpl. reflexivity.
  - exact Ab.
  - intros u1 u2 -> Hu2. cbn beta.
    match goal with |- ?t = None => destruct t as [res|] eqn:Hr end;
      [exfalso | reflexivity].
    apply conflict_tail_head in Hr as (sep' & R' & Hsep' & Heq).
    apply marker_not_early in Heq as (pre & post & ->); auto.
    apply Hno. exists (u1 ++ pre), post. now rewrite append_assoc.
  - cbn beta. rewrite Nat.sub_0_r. simpl Nat.add. rewrite take_append.
    now apply run_conflict_tail.
Qed.

(** X3. Round trip: the conflict name that the naming convention builds
    from a base without marker and an extension gives back that base and
    that extension. *)
Theorem conflict_groups_round_trip base sep d8 d6 w7 odot ext :
  Str.all dot base = true -> ~ contains "sync-conflict-" base ->
  (sep = "." \/ sep = "%2F") ->
  String.length d8 = 8 -> Str.all digit d8 = true ->
  String.length d6 = 6 -> Str.all digit d6 = true ->
  String.length w7 = 7 -> Str.all word w7 = true ->
  (odot = "." \/ (odot = "" /\ Str.startswith "." ext = false)) ->
  Str.all dot ext = true ->
  conflict_groups (base ++ sep ++ "sync-conflict-" ++ d8 ++ "-" ++ d6 ++ "-"
                   ++ w7 ++ odot ++ ext)
  = Some (base, ext).
Proof. apply conflict_groups_round_trip_aux. Qed.

(** X4. The conflict copy of [base.ext], as the naming convention builds
    it, is traced back to [base.ext]: that is the file [process_conflict]
    looks for first. *)
Theorem process_conflict_targets_original base d8 d6 w7 ext w :
  Str.all dot base = true -> ~ contains "sync-conflict-" base ->
  String.length d8 = 8 -> Str.all digit d8 = true ->
  String.length d6 = 6 -> Str.all digit d6 = true ->
  String.length w7 = 7 -> Str.all word w7 = true ->
  ext <> "" -> Str.all dot ext = true ->
  exists present evs,
    trace (snd (process_conflict
                  (base ++ ".sync-conflict-" ++ d8 ++ "-" ++ d6 ++ "-" ++ w7
                   ++ "." ++ ext) w))
    = (trace w ++ Isfile (base ++ "." ++ ext) present :: evs)%list.
Proof.
  intros Ab Hno H8 A8 H6 A6 H7 A7 Hne Ae.
  assert (Hg : conflict_groups
                 (base ++ "." ++ "sync-conflict-" ++ d8 ++ "-" ++ d6 ++ "-"
                  ++ w7 ++ "." ++ ext) = Some (base, ext)).
  { apply conflict_groups_round_trip_aux; auto. }
  destruct (process_conflict_first_event _ _ _ w Hg) as [evs Hevs].
  exists (Fs.is_file (original_of base ext) (files w)), evs.
  replace (base ++ "." ++ ext) with (original_of base ext).
  - exact Hevs.
  - unfold original_of. destruct ext; [congruence | reflexivity].
Qed.

End RoundTrip.

(** ** The checks and the run, branch by branch *)

Section RunExact.

Lemma existsb_upto_first {A : Type} (f : A -> bool) (l : list A) :
  existsb f (upto_first f l) = existsb f l.
Proof.
  induction l as [|a l IH]; simpl; [reflexivity|].
  destruct (f a) eqn:Ha; simpl; rewrite Ha; [reflexivity | exact IH].
Qed.

Lemma none_changed_exact now seconds paths : forall w,
  none_changed now seconds paths w =
  (Ok (negb (existsb (recent_at now seconds (files w)) paths)),
   {| environ := environ w; files := files w; logfile := logfile w;
      trace := (trace w
                ++ map (getmtime_event (files w))
                     (upto_first (recent_at now seconds (files w)) paths))%list
   |}).
Proof.
  induction paths as [|p paths IH]; intros w.
  - simpl. rewrite app_nil_r. now destruct w.
  - simpl. unfold bind at 1. rewrite changed_recently_eq.
    fold (getmtime_event (files w) p).
    destruct (recent_at now seconds (files w) p) eqn:Hr.
    + reflexivity.
    + rewrite IH. simpl. now rewrite <- app_assoc.
Qed.

Lemma no_recent_file_changes_exact path seconds w :
  no_recent_file_changes path seconds w =
  (Ok (negb (existsb (recent_at (clock (environ w)) seconds (files w))
               (Fs.walk path (files w)))),
   {| environ := environ w; files := files w; logfile := logfile w;
      trace := (trace w
                ++ Walk path
                   :: map (getmtime_event (files w))
                        (upto_first
                           (recent_at (clock (environ w)) seconds (files w))
                           (Fs.walk path (files w))))%list |}).
Proof.
  unfold no_recent_file_changes, time_time, os_walk, bind, ask, ret.
  rewrite none_changed_exact. simpl. now rewrite <- app_assoc.
Qed.

Lemma is_syncthing_idle_exact folder_id w :
  is_syncthing_idle folder_id w =
  (Ok (idle_answer (environ w)),
   {| environ := environ w; files := files w;
      logfile := (logfile w ++ idle_lines (environ w))%list;
      trace := (trace w
                ++ RequestsGet (SYNCTHING_URL ++ "/rest/db/status?folder="
                                ++ fmt_opt folder_id) (API_KEY (environ w))
                   :: map LogWrite (idle_lines (environ w)))%list |}).
Proof.
  unfold is_syncthing_idle, requests_get_state, bind, emit, ask, ret,
    idle_answer, idle_lines. simpl.
  destruct (syncthing (environ w)) as [[st|]|msg]; simpl;
    rewrite ?app_nil_r; try reflexivity.
  unfold traced, set_logfile. simpl. now rewrite <- app_assoc.
Qed.

End RunExact.

Section MainExact.

(** [main], branch by branch. *)
Lemma main_exact w :
  main w =
  match pgrep (environ w) with
  | NotLaunched =>
      (Raised (FileNotFoundError "pgrep"),
       traced (CheckOutput ["pgrep"; "-x"; "Obsidian"]) w)
  | Exited c =>
      if (c =? 0)%Z then
        log_run "Skipped: Obsidian is running"
          (traced (CheckOutput ["pgrep"; "-x"; "Obsidian"]) w)
      else if negb (idle_answer (environ w)) then
        log_run "Skipped: Syncthing is active" (after_request w)
      else if existsb (recent_at (clock (environ w)) MIN_IDLE_TIME (files w))
                (Fs.walk CHECK_DIR (files w)) then
        log_run "Skipped: recent file changes detected" (after_checks w)
      else
        log_run
          (summary_of
             (fst (resolved_in_order (conflicts_of (files w)) (scan_world w))))
          (snd (resolved_in_order (conflicts_of (files w)) (scan_world w)))
  end.
Proof.
  unfold main. unfold bind at 1. rewrite is_obsidian_running_eq.
  destruct (pgrep (environ w)) as [c|]; [|reflexivity].
  destruct (c =? 0)%Z; [reflexivity|].
  unfold bind at 1. unfold ask at 1. unfold bind at 1.
  rewrite is_syncthing_idle_exact. cbn [environ traced files logfile trace].
  change (idle_answer (environ w)) with (idle_answer (environ w)).
  destruct (idle_answer (environ w)) eqn:Hidle; cbn [negb].
  2:{ unfold after_request. rewrite <- app_assoc. reflexivity. }
  unfold bind at 1. rewrite no_recent_file_changes_exact.
  cbn [environ files logfile trace].
  assert (Hw : {| environ := environ w; files := files w;
                  logfile := (logfile w ++ idle_lines (environ w))%list;
                  trace := ((trace w ++ [CheckOutput ["pgrep"; "-x"; "Obsidian"]])
                            ++ RequestsGet
                                 (SYNCTHING_URL ++ "/rest/db/status?folder="
                                  ++ fmt_opt (FOLDER_ID (environ w)))
                                 (API_KEY (environ w))
                               :: map LogWrite (idle_lines (environ w)))
                           ++ Walk CHECK_DIR
                              :: map (getmtime_event (files w))
                                   (upto_first
                                      (recent_at (clock (environ w))
                                         MIN_IDLE_TIME (files w))
                                      (Fs.walk CHECK_DIR (files w))) |}%list
                = after_checks w).
  { unfold after_checks. f_equal. rewrite <- !app_assoc. simpl.
    rewrite <- ?app_assoc. reflexivity. }
  rewrite Hw.
  destruct (existsb _ _); cbn [negb]; [reflexivity|].
  unfold bind at 1. unfold time_sleep, emit at 1.
  unfold bind at 1. rewrite find_conflict_files_eq.
  change (files (traced Sleep (after_checks w))) with (files w).
  fold (scan_world w).
  unfold bind at 1. rewrite process_all_eq. reflexivity.
Qed.

End MainExact.

(** ** Further properties of the checks *)

Section GateExtras.





(** X9. [no_recent_file_changes] stops at the first recent file: the
    files the walk lists after it are never read. *)
Theorem no_recent_file_changes_stops_early path seconds w pre p post :
  Fs.walk path (files w) = (pre ++ p :: post)%list ->
  recent_at (clock (environ w)) seconds (files w) p = true ->
  (forall q, In q pre ->
     recent_at (clock (environ w)) seconds (files w) q = false) ->
  no_recent_file_changes path seconds w
  = (Ok false,
     {| environ := environ w; files := files w; logfile := logfile w;
        trace := (trace w
                  ++ Walk path
                     :: map (getmtime_event (files w)) (pre ++ [p]))%list |}).
Proof.
  intros Hw Hp Hpre. rewrite no_recent_file_changes_exact, Hw.
  assert (Hup : upto_first (recent_at (clock (environ w)) seconds (files w))
                  (pre ++ p :: post) = (pre ++ [p])%list).
  { clear Hw. induction pre as [|q pre IH]; simpl.
    - now rewrite Hp.
    - rewrite (Hpre q) by (left; reflexivity). f_equal.
      apply IH. intros q' Hq'. apply Hpre. now right. }
  rewrite Hup. rewrite existsb_app. simpl. rewrite Hp.
  now rewrite orb_true_r.
Qed.

(** X10. A longer idle window is the stricter test: a tree that is quiet
    for a window is quiet for every shorter one. *)
Theorem no_recent_file_changes_monotone path s1 s2 w :
  (s1 <= s2)%Z ->
  fst (no_recent_file_changes path s2 w) = Ok true ->
  fst (no_recent_file_changes path s1 w) = Ok true.
Proof.
  intros Hle. rewrite !no_recent_file_changes_exact. cbn [fst].
  intros H. injection H as H. apply negb_true_iff in H. f_equal.
  apply negb_true_iff.
  destruct (existsb (recent_at (clock (environ w)) s1 (files w)) _) eqn:E;
    [|reflexivity].
  apply existsb_exists in E as (q & Hin & Hq).
  assert (Hq2 : recent_at (clock (environ w)) s2 (files w) q = true).
  { unfold recent_at in *.
    destruct (Fs.lookup (Fs.normpath q) (files w)) as [[m d|]|];
      try discriminate.
    apply Z.ltb_lt in Hq. apply Z.ltb_lt. lia. }
  rewrite <- H. symmetry. apply existsb_exists. now exists q.
Qed.

End GateExtras.

(** ** Further properties of the resolver and the merge loop *)

Section ResolveExtras.

Lemma normpath_stversions k :
  Str.startswith (STVERSIONS_DIR ++ "/") k = true -> Fs.normpath k = k.
Proof.
  intros H. apply startswith_inv in H. rewrite H. reflexivity.
Qed.

(** X11. A backup that [find_backup_file] returns is an entry of the
    tree, under the backup store, named after the base with a time stamp
    of eight and six digits, a dot and the extension; the call changes
    neither tree nor log. *)
Theorem find_backup_file_returns_entry conflict_base ext w b :
  fst (find_backup_file conflict_base ext w) = Ok (Some b) ->
  (exists n, In (b, n) (files w))
  /\ (exists d8 d6 rest,
        b = ".stversions/" ++ conflict_base ++ "~" ++ d8 ++ "-" ++ d6 ++ "."
            ++ ext ++ rest
        /\ String.length d8 = 8 /\ Str.all digit d8 = true
        /\ String.length d6 = 6 /\ Str.all digit d6 = true)
  /\ files (snd (find_backup_file conflict_base ext w)) = files w
  /\ logfile (snd (find_backup_file conflict_base ext w)) = logfile w.
Proof.
  rewrite find_backup_file_eq. cbn [fst snd]. intros H. injection H as H.
  apply find_some in H as [Hin Hb].
  split; [|split; [now apply is_backup_iff | split; reflexivity]].
  unfold backup_candidates, Fs.walk in Hin. simpl String.eqb in Hin.
  cbv iota in Hin. apply in_map_iff in Hin as (k & <- & Hin).
  apply in_map_iff in Hin as ([k' n] & <- & Hin).
  apply filter_In in Hin as [Hin Hpre]. simpl in Hpre |- *.
  exists n. unfold Fs.relpath. simpl Fs.normpath at 2.
  rewrite String.eqb_refl.
  now rewrite (normpath_stversions k' Hpre).
Qed.

(** X12. The file [process_conflict] merges into is never the artifact:
    its name is at least 37 characters shorter, and the two stay apart
    when the paths are normalised. *)
Theorem original_is_another_file p base ext :
  conflict_groups p = Some (base, ext) ->
  String.length (original_of base ext) + 37 <= String.length p
  /\ Fs.normpath (original_of base ext) <> Fs.normpath p.
Proof.
  intros H. split; [|now apply original_differs].
  apply conflict_groups_shape in H as (tail & _ & H).
  destruct H as (sep & d8 & d6 & w7 & odot & -> & Hsep & H8 & _ & H6 & _
                 & H7 & _ & _ & _ & _).
  assert (Ho : String.length (original_of base ext)
               <= String.length base + 1 + String.length ext).
  { unfold original_of. destruct ext as [|a ext]; simpl; [lia|].
    rewrite length_append. simpl. lia. }
  rewrite !length_append, H8, H6, H7.
  destruct Hsep as [-> | ->]; simpl; lia.
Qed.


Lemma unlink_keys p t k n :
  In (k, n) (Fs.unlink p t) -> k <> Fs.normpath p /\ In (k, n) t.
Proof.
  unfold Fs.unlink. intros H. apply filter_In in H as [Hin Hk].
  simpl in Hk. apply negb_true_iff, String.eqb_neq in Hk.
  split; [congruence | exact Hin].
Qed.

Lemma write_keys p now d t k n :
  In (k, n) (Fs.write p now d t) -> exists n', In (k, n') t.
Proof.
  unfold Fs.write. intros H. apply in_map_iff in H as ([k' n'] & He & Hin).
  simpl in He. destruct (String.eqb (Fs.normpath p) k');
    injection He as <- _; now exists n'.
Qed.

Lemma merge_files_keys original backup conflict w k n :
  In (k, n) (files (snd (merge_files original backup conflict w))) ->
  exists n', In (k, n') (files w).
Proof.
  unfold merge_files, bind, run_git_merge_file, ret.
  destruct (Fs.read original (files w)), (Fs.read backup (files w)),
    (Fs.read conflict (files w)); simpl; eauto.
  destruct (git (environ w) s s0 s1) as [rc [m|]]; simpl; eauto.
  apply write_keys.
Qed.

(** X14. A resolved artifact is gone for the scanner: once
    [process_conflict] has returned true for a path, a scan of the tree it
    leaves does not yield that path again. *)
Theorem resolved_conflict_not_found_again p w :
  normalised (files w) ->
  fst (process_conflict p w) = Ok true ->
  ~ In p (conflicts_of (files (snd (process_conflict p w)))).
Proof.
  intros Hnorm Htrue Hin.
  destruct (conflict_groups p) as [[base ext]|] eqn:H.
  2:{ unfold process_conflict in Htrue. rewrite H in Htrue. discriminate. }
  rewrite (process_conflict_cases p base ext w H) in Htrue, Hin.
  set (original := original_of base ext) in *.
  destruct (Fs.is_file original (files w)); [|discriminate].
  set (w2 := traced (Walk STVERSIONS_DIR) (traced (Isfile original true) w))
    in *.
  destruct (find (is_backup base ext) (backup_candidates (files w)))
    as [bk|]; [|discriminate].
  destruct (merge_exit (environ w) (files w) original bk p =? 0)%Z;
    [|discriminate].
  cbn [snd files set_files traced] in Hin.
  unfold conflicts_of in Hin. apply filter_In in Hin as [Hin _].
  apply in_map_iff in Hin as (full & Hrel & Hin).
  unfold Fs.walk in Hin. simpl String.eqb in Hin. cbv iota in Hin.
  apply in_map_iff in Hin as ([k n] & <- & Hin).
  apply unlink_keys in Hin as [Hk Hin].
  apply merge_files_keys in Hin as [n' Hin].
  apply Hnorm in Hin. simpl fst in Hrel.
  unfold Fs.relpath in Hrel. simpl Fs.normpath at 2 in Hrel.
  rewrite String.eqb_refl in Hrel.
  change (Fs.normpath ("./" ++ k)) with (Fs.normpath k) in Hrel.
  rewrite Hin in Hrel. subst k. now rewrite Hin in Hk.
Qed.



End ResolveExtras.

(** ** The further properties at work on the example worlds *)

Section ExtraInstances.

Lemma notes_a_has_no_marker : ~ contains "sync-conflict-" "notes/a".
Proof.
  intros (pre & post & H). apply (f_equal String.length) in H.
  rewrite !length_append in H. simpl in H. lia.
Qed.

Lemma demo_world_normalised : normalised (files demo_world).
Proof.
  intros k n [H | [H | [H | []]]]; injection H as <- _; reflexivity.
Qed.

End ExtraInstances.

(** X2 on a path with two markers: the base stops at the first. *)
Lemma conflict_groups_shortest_base_twice :
  String.length "x"
  <= String.length "x.sync-conflict-20240101-120000-abc1234".
Proof.
  refine (conflict_groups_shortest_base twice_conflict "x"
            "sync-conflict-20240202-130000-def5678.md" _
            "x.sync-conflict-20240101-120000-abc1234" "md" "" _ _).
  - vm_compute. reflexivity.
  - left. reflexivity.
  - exists ".", "20240202", "130000", "def5678", ".".
    split; [reflexivity|]. split; [left; reflexivity|].
    repeat (split; [reflexivity|]). split; [right; reflexivity|].
    split; reflexivity.
Defined.

(** X3 on the artifact of the scenario. *)
Lemma conflict_groups_round_trip_demo :
  conflict_groups ("notes/a" ++ "." ++ "sync-conflict-" ++ "20240102" ++ "-"
                   ++ "130000" ++ "-" ++ "abcd123" ++ "." ++ "md")
  = Some ("notes/a", "md").
Proof.
  apply (conflict_groups_round_trip "notes/a" "." "20240102" "130000"
           "abcd123" "." "md"); try reflexivity.
  - exact notes_a_has_no_marker.
  - left. reflexivity.
  - left. reflexivity.
Defined.

(** X4 on the artifact of the scenario. *)
Lemma process_conflict_targets_original_demo :
  exists present evs,
    trace (snd (process_conflict
                  ("notes/a" ++ ".sync-conflict-" ++ "20240102" ++ "-"
                   ++ "130000" ++ "-" ++ "abcd123" ++ "." ++ "md")
                  demo_world))
    = (trace demo_world ++ Isfile ("notes/a" ++ "." ++ "md") present :: evs)%list.
Proof.
  apply (process_conflict_targets_original "notes/a" "20240102" "130000"
           "abcd123" "md" demo_world); try reflexivity.
  - exact notes_a_has_no_marker.
  - discriminate.
Defined.



(** X9 on the same tree: the third file is never read. *)
Lemma no_recent_file_changes_stops_early_demo :
  trace (snd (no_recent_file_changes "." 600 busy_world))
  = [Walk "."; Getmtime "./a.md" (Some 1000%Z);
     Getmtime "./b.md" (Some 999900%Z)].
Proof.
  rewrite (no_recent_file_changes_stops_early "." 600 busy_world
             ["./a.md"] "./b.md" ["./c.md"]).
  - reflexivity.
  - reflexivity.
  - vm_compute. reflexivity.
  - intros q [<- | []]. vm_compute. reflexivity.
Defined.

(** X10 on the scenario: quiet for ten minutes, quiet for one. *)
Lemma no_recent_file_changes_monotone_demo :
  fst (no_recent_file_changes "." 60 demo_world) = Ok true.
Proof.
  apply (no_recent_file_changes_monotone "." 60 600 demo_world).
  - lia.
  - vm_compute. reflexivity.
Defined.

(** X11 on the backup of the scenario. *)
Lemma find_backup_file_returns_entry_demo :
  exists n, In (".stversions/notes/a~20240101-120000.md", n)
              (files demo_world).
Proof.
  refine (proj1 (find_backup_file_returns_entry "notes/a" "md" demo_world
                   ".stversions/notes/a~20240101-120000.md" _)).
  vm_compute. reflexivity.
Defined.

(** X12 on the artifact of the scenario. *)
Lemma original_is_another_file_demo :
  String.length (original_of "notes/a" "md") + 37
  <= String.length demo_conflict.
Proof.
  refine (proj1 (original_is_another_file demo_conflict "notes/a" "md" _)).
  vm_compute. reflexivity.
Defined.

(** X14 on the scenario: the resolved artifact is not scanned again. *)
Lemma resolved_conflict_not_found_again_demo :
  ~ In demo_conflict
      (conflicts_of (files (snd (process_conflict demo_conflict demo_world)))).
Proof.
  apply (resolved_conflict_not_found_again demo_conflict demo_world).
  - exact demo_world_normalised.
  - vm_compute. reflexivity.
Defined.

(** ** The scanner and the run on a tree of normalised paths *)

Section ScanExtras.

Lemma relpath_joined k :
  Fs.normpath k = k -> Fs.relpath ("./" ++ k) "." = k.
Proof.
  intros H. unfold Fs.relpath. simpl Fs.normpath at 2.
  rewrite String.eqb_refl. exact H.
Qed.

Lemma walk_relpath_keys t :
  normalised t ->
  map (fun p => Fs.relpath p ".") (Fs.walk "." t) = map fst t.
Proof.
  unfold Fs.walk. simpl String.eqb. cbv iota. rewrite map_map.
  induction t as [|[k n] t IH]; intros Hn; [reflexivity|].
  simpl map. f_equal.
  - apply relpath_joined. apply (Hn k n). now left.
  - apply IH. intros k' n' Hin. apply (Hn k' n'). now right.
Qed.

(** X16. On a tree of normalised paths the scanner yields the paths of
    the tree that match the conflict pattern, each as the tree has it and
    in walk order; it changes neither tree nor log. *)
Theorem find_conflict_files_yields_keys w :
  normalised (files w) ->
  fst (find_conflict_files "." w)
  = Ok (filter is_conflict (map fst (files w)))
  /\ files (snd (find_conflict_files "." w)) = files w
  /\ logfile (snd (find_conflict_files "." w)) = logfile w.
Proof.
  intros Hn. rewrite find_conflict_files_eq. cbn [fst snd].
  unfold conflicts_of. rewrite (walk_relpath_keys _ Hn). auto.
Qed.

Lemma process_conflict_keys p w k n :
  In (k, n) (files (snd (process_conflict p w))) ->
  exists n', In (k, n') (files w).
Proof.
  destruct (conflict_groups p) as [[base ext]|] eqn:H.
  2:{ unfold process_conflict. rewrite H. simpl. eauto. }
  rewrite (process_conflict_cases p base ext w H).
  set (original := original_of base ext).
  destruct (Fs.is_file original (files w)); [|simpl; eauto].
  set (w2 := traced (Walk STVERSIONS_DIR) (traced (Isfile original true) w)).
  destruct (find (is_backup base ext) (backup_candidates (files w)))
    as [bk|]; [|simpl; eauto].
  destruct (merge_exit (environ w) (files w) original bk p =? 0)%Z;
    cbn [snd files set_files traced]; intros Hin.
  - apply unlink_keys in Hin as [_ Hin].
    now apply merge_files_keys in Hin.
  - now apply merge_files_keys in Hin.
Qed.

Lemma process_conflict_true_removes p w :
  fst (process_conflict p w) = Ok true ->
  forall n, ~ In (Fs.normpath p, n) (files (snd (process_conflict p w))).
Proof.
  intros Htrue n Hin.
  destruct (conflict_groups p) as [[base ext]|] eqn:H.
  2:{ unfold process_conflict in Htrue. rewrite H in Htrue. discriminate. }
  rewrite (process_conflict_cases p base ext w H) in Htrue, Hin.
  set (original := original_of base ext) in *.
  destruct (Fs.is_file original (files w)); [|discriminate].
  destruct (find (is_backup base ext) (backup_candidates (files w)))
    as [bk|]; [|discriminate].
  destruct (merge_exit (environ w) (files w) original bk p =? 0)%Z;
    [|discriminate].
  cbn [snd files set_files traced] in Hin.
  apply unlink_keys in Hin as [Hk _]. now apply Hk.
Qed.

Lemma resolved_in_order_keys cs : forall w k n,
  In (k, n) (files (snd (resolved_in_order cs w))) ->
  exists n', In (k, n') (files w).
Proof.
  induction cs as [|c cs IH]; intros w k n; simpl; [eauto|].
  pose proof (process_conflict_keys c w k) as Hstep.
  destruct (process_conflict c w) as [r w1]. specialize (IH w1 k n).
  destruct (resolved_in_order cs w1) as [rs w2]. simpl in *.
  intros Hin. destruct (IH Hin) as [n1 H1]. eauto.
Qed.

Lemma resolved_in_order_gone cs : forall w,
  (forall c, In c cs -> Fs.normpath c = c) ->
  forall c, In c (fst (resolved_in_order cs w)) ->
  forall n, ~ In (c, n) (files (snd (resolved_in_order cs w))).
Proof.
  induction cs as [|c0 cs IH]; intros w Hn c Hc n Hin; simpl in *; [easy|].
  pose proof (process_conflict_true_removes c0 w) as Hrm.
  destruct (process_conflict c0 w) as [r w1] eqn:Hp.
  pose proof (resolved_in_order_keys cs w1 c n) as Hkeys.
  specialize (IH w1 (fun c' H' => Hn c' (or_intror H')) c).
  destruct (resolved_in_order cs w1) as [rs w2]. simpl in *.
  assert (Hrest : In c rs -> False) by (intros H'; exact (IH H' n Hin)).
  destruct r as [[|]|e]; try (exact (Hrest Hc)).
  destruct Hc as [<- | Hc]; [|exact (Hrest Hc)].
  destruct (Hkeys Hin) as [n1 H1].
  apply (Hrm eq_refl n1). rewrite (Hn c0) by now left. exact H1.
Qed.

(** X17. What a run resolves it does not meet again: on a tree of
    normalised paths, after a run that passed the checks, a new scan
    yields none of the artifacts the run reported as resolved. *)
Theorem main_resolved_are_gone w :
  normalised (files w) ->
  fst (is_obsidian_running w) = Ok false ->
  fst (is_syncthing_idle (FOLDER_ID (environ w)) w) = Ok true ->
  fst (no_recent_file_changes CHECK_DIR MIN_IDLE_TIME w) = Ok true ->
  forall c,
    In c (fst (resolved_in_order (conflicts_of (files w)) (scan_world w))) ->
    ~ In c (conflicts_of (files (snd (main w)))).
Proof.
  intros Hn H1 H2 H3 c Hc Hin.
  rewrite is_obsidian_running_eq in H1. cbn [fst] in H1.
  rewrite is_syncthing_idle_exact in H2. cbn [fst] in H2.
  injection H2 as H2.
  rewrite no_recent_file_changes_exact in H3. cbn [fst] in H3.
  injection H3 as H3. apply negb_true_iff in H3.
  rewrite main_exact in Hin.
  destruct (pgrep (environ w)) as [z|]; [|discriminate].
  injection H1 as H1. rewrite H1, H2, H3 in Hin. cbn [negb] in Hin.
  rewrite log_run_eq in Hin. cbn [snd files set_logfile traced] in Hin.
  set (cs := conflicts_of (files w)) in *.
  assert (Hcs : forall c', In c' cs -> Fs.normpath c' = c').
  { intros c' Hc'. unfold cs, conflicts_of in Hc'.
    apply filter_In in Hc' as [Hc' _].
    rewrite (walk_relpath_keys _ Hn) in Hc'.
    apply in_map_iff in Hc' as ([k n] & <- & Hk). exact (Hn k n Hk). }
  assert (Hn' : normalised (files (snd (resolved_in_order cs (scan_world w))))).
  { intros k n Hk. apply resolved_in_order_keys in Hk as [n' Hk].
    exact (Hn k n' Hk). }
  unfold conflicts_of in Hin. apply filter_In in Hin as [Hin _].
  rewrite (walk_relpath_keys _ Hn') in Hin.
  apply in_map_iff in Hin as ([k n] & <- & Hk).
  exact (resolved_in_order_gone cs (scan_world w) Hcs k Hc n Hk).
Qed.

End ScanExtras.

(** X16 on the scenario. *)
Lemma find_conflict_files_yields_keys_demo :
  fst (find_conflict_files "." demo_world) = Ok [demo_conflict].
Proof.
  refine (proj1 (find_conflict_files_yields_keys demo_world _)).
  exact demo_world_normalised.
Defined.

(** X17 on the scenario: the run resolves the artifact, and a second scan
    does not find it. *)
Lemma main_resolved_are_gone_demo :
  ~ In demo_conflict (conflicts_of (files (snd (main demo_world)))).
Proof.
  apply (main_resolved_are_gone demo_world).
  - exact demo_world_normalised.
  - vm_compute. reflexivity.
  - vm_compute. reflexivity.
  - vm_compute. reflexivity.
  - vm_compute. left. reflexivity.
Defined.
